(** * Streaming core of the claim-intake front end

    A shallow embedding of the two streaming consumers of the front end:

    - the hook [useClaimProcessor] ([reset], [processStream], [processClaim],
      [processFile]), which reads a chunked response body, frames it into
      newline-delimited JSON records and aggregates them;
    - the component [ClaimChatBox] ([handleSend]), which reads a chunked
      response body as raw text into the open assistant message.

    JavaScript strings are sequences of UTF-16 code units, byte chunks are
    [Uint8Array]s, React state is threaded explicitly, and exceptions are
    the [Throw] completions of a small state-and-exception monad. *)

From Stdlib Require Import ZArith List Bool Lia.
From Stdlib Require Import Strings.String Strings.Ascii Strings.Byte.
From Stdlib Require Import Numbers.DecimalString.
Import ListNotations.

Open Scope Z_scope.
Open Scope list_scope.

(* ================================================================= *)
(** ** JavaScript strings *)

Module JS.

(** A string value: its UTF-16 code units, each in [0, 0xFFFF]. *)
Definition jsstring := list Z.

(** An ASCII literal of the source as a string value. *)
Definition lit (s : string) : jsstring :=
  map (fun c => Z.of_N (N_of_ascii c)) (list_ascii_of_string s).

(** [a === b] on strings. *)
Fixpoint eqb (a b : jsstring) : bool :=
  match a, b with
  | [], [] => true
  | x :: a', y :: b' => (x =? y) && eqb a' b'
  | _, _ => false
  end.

(** Truthiness of a string: [!s] is [negb (truthy s)]. *)
Definition truthy (s : jsstring) : bool :=
  match s with
  | [] => false
  | _ :: _ => true
  end.

(** WhiteSpace and LineTerminator code points of ECMAScript, the ones
    [String.prototype.trim] strips: TAB, LF, VT, FF, CR, SP, NBSP, the
    Space_Separator category, LS, PS and ZWNBSP. *)
Definition is_white_space (c : Z) : bool :=
  (c =? 0x09) || (c =? 0x0A) || (c =? 0x0B) || (c =? 0x0C) || (c =? 0x0D)
  || (c =? 0x20) || (c =? 0xA0) || (c =? 0x1680)
  || ((0x2000 <=? c) && (c <=? 0x200A))
  || (c =? 0x2028) || (c =? 0x2029) || (c =? 0x202F) || (c =? 0x205F)
  || (c =? 0x3000) || (c =? 0xFEFF).

Fixpoint trimStart (s : jsstring) : jsstring :=
  match s with
  | [] => []
  | c :: s' => if is_white_space c then trimStart s' else s
  end.

Definition trimEnd (s : jsstring) : jsstring :=
  rev (trimStart (rev s)).

(** [s.trim()]. *)
Definition trim (s : jsstring) : jsstring :=
  trimEnd (trimStart s).

(** The line feed, the separator of [split("\n")]. *)
Definition LF : Z := 0x0A.

(** [s.split("\n")]: the segments between line feeds, never an empty
    array. *)
Fixpoint split (s : jsstring) : list jsstring :=
  match s with
  | [] => [[]]
  | c :: s' =>
      if c =? LF then [] :: split s'
      else match split s' with
           | seg :: segs => (c :: seg) :: segs
           | [] => [[c]]
           end
  end.

(** [lines.pop() || ""] leaves the array without its last element and
    gives that element ([""] when it is falsy or absent). *)
Definition pop (lines : list jsstring) : list jsstring * jsstring :=
  (removelast lines, last lines []).

(** [prev.includes(x)] on an array of strings. *)
Definition includes (prev : list jsstring) (x : jsstring) : bool :=
  existsb (eqb x) prev.

(** [n.toString()] for an integer. *)
Definition number_toString (n : Z) : jsstring :=
  lit (NilEmpty.string_of_int (Z.to_int n)).

(** [segs.join("\n")]. *)
Fixpoint join (segs : list jsstring) : jsstring :=
  match segs with
  | [] => []
  | [seg] => seg
  | seg :: rest => seg ++ LF :: join rest
  end.

(** [hay.includes(needle)] on strings. *)
Fixpoint starts_with (needle hay : jsstring) : bool :=
  match needle, hay with
  | [], _ => true
  | x :: n', y :: h' => (x =? y) && starts_with n' h'
  | _ :: _, [] => false
  end.

Fixpoint contains (hay needle : jsstring) : bool :=
  starts_with needle hay ||
  match hay with
  | [] => false
  | _ :: hay' => contains hay' needle
  end.

End JS.

Definition jsstring : Type := JS.jsstring.

(* ================================================================= *)
(** ** The streaming UTF-8 [TextDecoder] *)

Module TextDecoder.

(** A chunk handed out by [reader.read()]: the bytes of a [Uint8Array]. *)
Definition chunk := list byte.

Definition byte_value (b : byte) : Z := Z.of_N (Byte.to_N b).

(** The state a [TextDecoder] keeps between [decode(value, {stream: true})]
    calls: the UTF-8 decoder's code point, bytes seen, bytes needed and
    continuation-byte bounds, and the BOM-seen flag. *)
Record t := mk {
  code_point : Z;
  bytes_seen : Z;
  bytes_needed : Z;
  lower_boundary : Z;
  upper_boundary : Z;
  BOM_seen : bool
}.

(** [new TextDecoder()]: UTF-8, replacement error mode, BOM not ignored. *)
Definition new : t := mk 0 0 0 0x80 0xBF false.

Definition REPLACEMENT : Z := 0xFFFD.

Definition clear (d : t) : t :=
  mk 0 0 0 0x80 0xBF (BOM_seen d).

Definition with_BOM_seen (d : t) (seen : bool) : t :=
  mk (code_point d) (bytes_seen d) (bytes_needed d)
     (lower_boundary d) (upper_boundary d) seen.

(** The handler on a byte when no sequence is open. *)
Definition lead (d : t) (b : Z) : t * list Z :=
  if b <=? 0x7F then (d, [b])
  else if (0xC2 <=? b) && (b <=? 0xDF) then
    (mk (Z.land b 0x1F) (bytes_seen d) 1
        (lower_boundary d) (upper_boundary d) (BOM_seen d), [])
  else if (0xE0 <=? b) && (b <=? 0xEF) then
    (mk (Z.land b 0xF) (bytes_seen d) 2
        (if b =? 0xE0 then 0xA0 else lower_boundary d)
        (if b =? 0xED then 0x9F else upper_boundary d) (BOM_seen d), [])
  else if (0xF0 <=? b) && (b <=? 0xF4) then
    (mk (Z.land b 0x7) (bytes_seen d) 3
        (if b =? 0xF0 then 0x90 else lower_boundary d)
        (if b =? 0xF4 then 0x8F else upper_boundary d) (BOM_seen d), [])
  else (d, [REPLACEMENT]).

(** The UTF-8 decoder's handler on one byte, with the scalar values it
    emits.  A byte outside the expected bounds closes the open sequence
    with U+FFFD and is handled again as a lead byte. *)
Definition handler (d : t) (b : Z) : t * list Z :=
  if bytes_needed d =? 0 then lead d b
  else if negb ((lower_boundary d <=? b) && (b <=? upper_boundary d)) then
    let '(d', out) := lead (clear d) b in (d', REPLACEMENT :: out)
  else
    let cp := Z.lor (Z.shiftl (code_point d) 6) (Z.land b 0x3F) in
    let seen := bytes_seen d + 1 in
    if seen =? bytes_needed d then (clear d, [cp])
    else (mk cp seen (bytes_needed d) 0x80 0xBF (BOM_seen d), []).

(** The handler run over the bytes of one chunk. *)
Fixpoint run (d : t) (bytes : chunk) : t * list Z :=
  match bytes with
  | [] => (d, [])
  | b :: rest =>
      let '(d1, out1) := handler d (byte_value b) in
      let '(d2, out2) := run d1 rest in
      (d2, out1 ++ out2)
  end.

(** A scalar value as UTF-16 code units. *)
Definition utf16 (cp : Z) : jsstring :=
  if cp <=? 0xFFFF then [cp]
  else [0xD800 + Z.shiftr (cp - 0x10000) 10;
        0xDC00 + Z.land (cp - 0x10000) 0x3FF].

(** Serialising the emitted scalar values: the first one ever emitted is
    dropped when it is the byte order mark. *)
Fixpoint serialize (bom_seen : bool) (out : list Z) : bool * jsstring :=
  match out with
  | [] => (bom_seen, [])
  | cp :: rest =>
      let '(seen, s) := serialize true rest in
      if negb bom_seen && (cp =? 0xFEFF) then (seen, s)
      else (seen, utf16 cp ++ s)
  end.

(** [decoder.decode(value, { stream: true })]: an incomplete sequence at
    the end of [value] stays in the decoder. *)
Definition decode (d : t) (value : chunk) : t * jsstring :=
  let '(d1, out) := run d value in
  let '(seen, s) := serialize (BOM_seen d1) out in
  (with_BOM_seen d1 seen, s).

(** The text a decoder produces over successive chunks. *)
Fixpoint decode_chunks (d : t) (chunks : list chunk) : t * jsstring :=
  match chunks with
  | [] => (d, [])
  | value :: rest =>
      let '(d1, s1) := decode d value in
      let '(d2, s2) := decode_chunks d1 rest in
      (d2, s1 ++ s2)
  end.

Definition decode_text (chunks : list chunk) : jsstring :=
  snd (decode_chunks new chunks).

End TextDecoder.

(* ================================================================= *)
(** ** Completions, effects and the state-and-exception monad *)

(** A thrown value: an [Error] with its message, or anything else. *)
Inductive Thrown :=
| JsError (message : jsstring)
| NotAnError.

(** How an awaited promise settles or an asynchronous function completes:
    with a value, with a thrown value, or not yet ([Pending]: the function
    is suspended at an [await] whose promise has not settled). *)
Inductive Completion (A : Type) :=
| Normal (a : A)
| Throw (e : Thrown)
| Pending.

Arguments Normal {A} a.
Arguments Throw {A} e.
Arguments Pending {A}.

(** A streamed response body: the chunks the [reader.read()] calls have
    resolved to, and what the read after them does: resolves with [done]
    ([Normal tt]), rejects ([Throw e]), or has not settled ([Pending]). *)
Record BodyStream := {
  chunks : list TextDecoder.chunk;
  ending : Completion unit
}.

(** The [Response] a [fetch] resolves to, with what its body does. *)
Record Response := {
  ok : bool;
  status : Z;
  text : Completion jsstring;   (* what [await response.text()] gives *)
  body : option BodyStream      (* [response.body?.getReader()] *)
}.

(** One record of the progress stream. *)
Record StreamResult {Data : Type} := {
  node : jsstring;
  data : Data
}.

Arguments StreamResult Data : clear implicits.

(** What the code takes from its platform and its back end.  [JSON_parse]
    is [JSON.parse] followed by the cast [as StreamResult], with [None] for
    a [SyntaxError]: parsed values are taken at the type the cast gives
    them, an object with a string [node] and a payload [data].  The last
    three fields are the texts [handleSend] interpolates from the payload
    of the last result. *)
Class Platform := {
  Data : Type;
  File : Type;
  JSON_parse : jsstring -> option (StreamResult Data);
  claim_description : Data -> jsstring;
  risk_assessment_report : Data -> jsstring;
  routing_decision_report : Data -> jsstring
}.

Inductive Endpoint :=
| API_ENDPOINT            (* /process-claim-stream/ *)
| API_FILE_ENDPOINT       (* /process-claim-file-stream/ *)
| CHAT_ENDPOINT.          (* /chat-stream/ *)

(** The object a request body is made from. *)
Inductive RequestBody {P : Platform} :=
| ClaimBody (claim_description : jsstring)
| FileBody (file : File)
| ChatBody (claim_data question : jsstring).

(** What the code does to the outside, in the order it does it; writes of
    [isProcessing] are recorded as well. *)
Inductive Effect {P : Platform} :=
| Fetch (endpoint : Endpoint) (request : RequestBody)
| ConsoleWarn (label : string) (arg : jsstring)
| ConsoleErrorText (label : string) (arg : jsstring)
| ConsoleErrorThrown (label : string) (arg : Thrown)
| ToastSuccess (message : jsstring)
| ToastError (message : jsstring)
| SetIsProcessing (value : bool).

(** A component's React state with the effects performed so far. *)
Record World {P : Platform} (S : Type) := {
  state : S;
  effects : list Effect
}.

Arguments state {P S} w.
Arguments effects {P S} w.
Arguments Build_World {P S} state effects.

Definition M {P : Platform} (S A : Type) : Type :=
  World S -> Completion A * World S.

Section Monad.
Context {P : Platform} {S : Type}.

Definition ret {A} (a : A) : M S A :=
  fun w => (Normal a, w).

Definition bind {A B} (m : M S A) (k : A -> M S B) : M S B :=
  fun w =>
    match m w with
    | (Normal a, w') => k a w'
    | (Throw e, w') => (Throw e, w')
    | (Pending, w') => (Pending, w')
    end.

Definition throw {A} (e : Thrown) : M S A :=
  fun w => (Throw e, w).

(** [try { m } catch (error) { handler error }]. *)
Definition try_catch {A} (m : M S A) (handler : Thrown -> M S A) : M S A :=
  fun w =>
    match m w with
    | (Normal a, w') => (Normal a, w')
    | (Throw e, w') => handler e w'
    | (Pending, w') => (Pending, w')
    end.

(** [try { m } finally { cleanup }]: the cleanup runs when [m] returns or
    throws, and a completion of its own other than normal replaces that
    of [m]; while [m] is suspended the cleanup has not run. *)
Definition try_finally {A} (m : M S A) (cleanup : M S unit) : M S A :=
  fun w =>
    match m w with
    | (Pending, w') => (Pending, w')
    | (c, w') =>
        match cleanup w' with
        | (Normal _, w'') => (c, w'')
        | (Throw e, w'') => (Throw e, w'')
        | (Pending, w'') => (Pending, w'')
        end
    end.

Definition get : M S S :=
  fun w => (Normal (state w), w).

Definition modify (f : S -> S) : M S unit :=
  fun w => (Normal tt, Build_World (f (state w)) (effects w)).

Definition perform (e : Effect) : M S unit :=
  fun w => (Normal tt, Build_World (state w) (effects w ++ [e])).

(** [await p] for a promise in state [c]. *)
Definition await {A} (c : Completion A) : M S A :=
  fun w => (c, w).

(** The final state and the completion of a run. *)
Definition exec {A} (m : M S A) (w : World S) : World S :=
  snd (m w).

Definition completion {A} (m : M S A) (w : World S) : Completion A :=
  fst (m w).

(** Every run of [m] takes a world to one related to it by [R]. *)
Definition respects {A} (R : World S -> World S -> Prop) (m : M S A) : Prop :=
  forall w, R w (exec m w).

(** [for (const x of xs) { body x }]. *)
Fixpoint for_of {A} (xs : list A) (body : A -> M S unit) : M S unit :=
  match xs with
  | [] => ret tt
  | x :: rest => bind (body x) (fun _ => for_of rest body)
  end.

(** [await fetch(endpoint, { body })], the request's promise being in
    state [net]. *)
Definition fetch (endpoint : Endpoint) (request : RequestBody)
    (net : Completion Response) : M S Response :=
  bind (perform (Fetch endpoint request)) (fun _ => await net).

End Monad.

Declare Scope js_scope.
Delimit Scope js_scope with js.
Notation "x <- m ;; k" := (bind m (fun x => k))
  (at level 100, m at next level, right associativity) : js_scope.
Notation "m ;; k" := (bind m (fun _ => k))
  (at level 100, right associativity) : js_scope.

Open Scope js_scope.

(* ================================================================= *)
(** ** The hook [useClaimProcessor] *)

Module ClaimProcessor.
Section Hook.
Context {P : Platform}.

Record HookState := {
  isProcessing : bool;
  results : list (StreamResult Data);
  completedNodes : list jsstring
}.

(** The state of a freshly mounted hook. *)
Definition initial : HookState :=
  {| isProcessing := false; results := []; completedNodes := [] |}.

Definition setResults
    (f : list (StreamResult Data) -> list (StreamResult Data))
    : M HookState unit :=
  modify (fun st =>
    {| isProcessing := isProcessing st;
       results := f (results st);
       completedNodes := completedNodes st |}).

Definition setCompletedNodes (f : list jsstring -> list jsstring)
    : M HookState unit :=
  modify (fun st =>
    {| isProcessing := isProcessing st;
       results := results st;
       completedNodes := f (completedNodes st) |}).

Definition setIsProcessing (value : bool) : M HookState unit :=
  modify (fun st =>
    {| isProcessing := value;
       results := results st;
       completedNodes := completedNodes st |}) ;;
  perform (SetIsProcessing value).

Definition reset : M HookState unit :=
  setResults (fun _ => []) ;;
  setCompletedNodes (fun _ => []) ;;
  setIsProcessing false.

(** The two state updates made for a parsed record, both queued in the
    same synchronous block. *)
Definition append_record (parsed : StreamResult Data) : M HookState unit :=
  setResults (fun prev => prev ++ [parsed]) ;;
  setCompletedNodes (fun prev =>
    if JS.includes prev (node parsed) then prev else prev ++ [node parsed]).

(** The body of the [for] loop over the complete lines of a chunk. *)
Definition process_line (line : jsstring) : M HookState unit :=
  let trimmedLine := JS.trim line in
  if negb (JS.truthy trimmedLine) then ret tt
  else
    match JSON_parse trimmedLine with
    | Some parsed => append_record parsed
    | None => perform (ConsoleWarn "Failed to parse line:" trimmedLine)
    end.

(** The [while (true)] loop: one iteration per chunk read, leaving the
    loop with the buffer when the reader is done. *)
Fixpoint read_loop (pending : list TextDecoder.chunk)
    (ending : Completion unit)
    (decoder : TextDecoder.t) (buffer : jsstring) : M HookState jsstring :=
  match pending with
  | [] => await ending ;; ret buffer
  | value :: rest =>
      let '(decoder', decoded) := TextDecoder.decode decoder value in
      let buffer := buffer ++ decoded in
      let '(lines, buffer) := JS.pop (JS.split buffer) in
      for_of lines process_line ;;
      read_loop rest ending decoder' buffer
  end.

(** The statement after the loop, on what is left in the buffer. *)
Definition flush (buffer : jsstring) : M HookState unit :=
  if JS.truthy (JS.trim buffer) then
    match JSON_parse (JS.trim buffer) with
    | Some parsed => append_record parsed
    | None => perform (ConsoleWarn "Failed to parse remaining buffer:" buffer)
    end
  else ret tt.

Definition processStream (response : Response) : M HookState unit :=
  match body response with
  | None => throw (JsError (JS.lit "No response body reader available"))
  | Some reader =>
      buffer <- read_loop (chunks reader) (ending reader) TextDecoder.new [] ;;
      flush buffer
  end.

(** The [if (!response.ok)] block shared by both submissions. *)
Definition check_ok (response : Response) : M HookState unit :=
  if negb (ok response) then
    errorText <- await (text response) ;;
    perform (ConsoleErrorText "Backend error response:" errorText) ;;
    throw (JsError (JS.lit "HTTP error! status: "
                    ++ JS.number_toString (status response)
                    ++ JS.lit " - " ++ errorText))
  else ret tt.

(** The message of the error toast in a [catch] block. *)
Definition error_toast (fallback : string) (error : Thrown) : jsstring :=
  match error with
  | JsError message => JS.lit "Connection Error: " ++ message
  | NotAnError => JS.lit fallback
  end.

Definition processClaim (claimText : jsstring) (net : Completion Response)
    : M HookState unit :=
  reset ;;
  setIsProcessing true ;;
  try_finally
    (try_catch
       (response <- fetch API_ENDPOINT (ClaimBody claimText) net ;;
        check_ok response ;;
        processStream response ;;
        perform (ToastSuccess (JS.lit "Claim processed successfully!")))
       (fun error =>
          perform (ConsoleErrorThrown "Error processing claim:" error) ;;
          perform (ToastError
            (error_toast "Failed to connect to the processing server" error))))
    (setIsProcessing false).

Definition processFile (file : File) (net : Completion Response)
    : M HookState unit :=
  reset ;;
  setIsProcessing true ;;
  try_finally
    (try_catch
       (response <- fetch API_FILE_ENDPOINT (FileBody file) net ;;
        check_ok response ;;
        processStream response ;;
        perform (ToastSuccess (JS.lit "File processed successfully!")))
       (fun error =>
          perform (ConsoleErrorThrown "Error processing file:" error) ;;
          perform (ToastError
            (error_toast "Failed to process the file" error))))
    (setIsProcessing false).

End Hook.
End ClaimProcessor.

(* ================================================================= *)
(** ** The component [ClaimChatBox] *)

Module ClaimChatBox.
Section Component.
Context {P : Platform}.

Inductive Role := user | assistant.

Record Message := {
  id : jsstring;
  role : Role;
  content : jsstring;
  timestamp : Z
}.

Record ChatState := {
  messages : list Message;
  input : jsstring;
  isLoading : bool
}.

(** The four clock readings of one [handleSend]: [Date.now()] and
    [new Date()] for the user message, then for the placeholder. *)
Record Clock := {
  user_now : Z;
  user_date : Z;
  assistant_now : Z;
  assistant_date : Z
}.

Definition greeting : jsstring :=
  JS.lit "Hello! I'm here to help you with questions about this claim. What would you like to know?".

(** The state of a freshly mounted chat box, mounted at time [now]. *)
Definition initial (now : Z) : ChatState :=
  {| messages := [ {| id := JS.lit "1"; role := assistant;
                      content := greeting; timestamp := now |} ];
     input := [];
     isLoading := false |}.

Definition setMessages (f : list Message -> list Message)
    : M ChatState unit :=
  modify (fun st =>
    {| messages := f (messages st);
       input := input st;
       isLoading := isLoading st |}).

Definition setInput (value : jsstring) : M ChatState unit :=
  modify (fun st =>
    {| messages := messages st;
       input := value;
       isLoading := isLoading st |}).

Definition setIsLoading (value : bool) : M ChatState unit :=
  modify (fun st =>
    {| messages := messages st;
       input := input st;
       isLoading := value |}).

(** [{ ...msg, content: value }] for the messages whose id is
    [assistantMessageId], the others unchanged. *)
Definition set_content (assistantMessageId value : jsstring)
    (prev : list Message) : list Message :=
  map (fun msg =>
         if JS.eqb (id msg) assistantMessageId
         then {| id := id msg; role := role msg;
                 content := value; timestamp := timestamp msg |}
         else msg) prev.

(** The claim text sent with the question, from the [claimData] prop. *)
Definition claim_text (claimData : option (list (StreamResult Data)))
    : jsstring :=
  match claimData with
  | Some (r :: rs) =>
      let lastResult := data (last rs r) in
      JS.lit "Claim Description: " ++ claim_description lastResult
      ++ [JS.LF; JS.LF] ++ JS.lit "Risk Assessment Report: "
      ++ risk_assessment_report lastResult
      ++ [JS.LF; JS.LF] ++ JS.lit "Routing Decision Report: "
      ++ routing_decision_report lastResult
  | _ => []
  end.

(** The [while (true)] loop over the chunks of the answer. *)
Fixpoint read_loop (assistantMessageId : jsstring)
    (pending : list TextDecoder.chunk) (ending : Completion unit)
    (decoder : TextDecoder.t) (accumulatedContent : jsstring)
    : M ChatState unit :=
  match pending with
  | [] => await ending
  | value :: rest =>
      let '(decoder', chunk) := TextDecoder.decode decoder value in
      let accumulatedContent := accumulatedContent ++ chunk in
      setMessages (set_content assistantMessageId accumulatedContent) ;;
      read_loop assistantMessageId rest ending decoder' accumulatedContent
  end.

Definition apology : jsstring :=
  JS.lit "Sorry, I encountered an error processing your question. Please try again.".

(** [input] and [isLoading] are the values of the state the handler was
    created for, read here from the current state. *)
Definition handleSend (claimData : option (list (StreamResult Data)))
    (clock : Clock) (net : Completion Response) : M ChatState unit :=
  st <- get ;;
  if negb (JS.truthy (JS.trim (input st))) || isLoading st then ret tt
  else
    let userMessage :=
      {| id := JS.number_toString (user_now clock); role := user;
         content := input st; timestamp := user_date clock |} in
    setMessages (fun prev => prev ++ [userMessage]) ;;
    let currentQuestion := input st in
    setInput [] ;;
    setIsLoading true ;;
    let assistantMessageId := JS.number_toString (assistant_now clock + 1) in
    let assistantMessage :=
      {| id := assistantMessageId; role := assistant;
         content := []; timestamp := assistant_date clock |} in
    setMessages (fun prev => prev ++ [assistantMessage]) ;;
    try_finally
      (try_catch
         (let claimText := claim_text claimData in
          response <- fetch CHAT_ENDPOINT
                        (ChatBody claimText currentQuestion) net ;;
          (if negb (ok response) then
             throw (JsError (JS.lit "Failed to get response from chat API"))
           else ret tt) ;;
          match body response with
          | Some reader =>
              read_loop assistantMessageId (chunks reader) (ending reader)
                        TextDecoder.new []
          | None => ret tt
          end)
         (fun error =>
            perform (ConsoleErrorThrown "Chat error:" error) ;;
            setMessages (set_content assistantMessageId apology)))
      (setIsLoading false).

End Component.
End ClaimChatBox.

(* ================================================================= *)
(** ** Vocabulary of the properties *)

Module Spec.
Section Vocabulary.
Context {P : Platform}.

(** The distinct elements of a list, each where it first occurs. *)
Fixpoint first_occurrences (l : list jsstring) : list jsstring :=
  match l with
  | [] => []
  | x :: rest =>
      x :: filter (fun y => negb (JS.eqb x y)) (first_occurrences rest)
  end.

(** How many times [x] occurs in [l]. *)
Definition occurrences (x : jsstring) (l : list jsstring) : nat :=
  List.length (filter (JS.eqb x) l).

(** The relationship between the two lists of the hook. *)
Definition consistent (st : ClaimProcessor.HookState) : Prop :=
  NoDup (ClaimProcessor.completedNodes st) /\
  ClaimProcessor.completedNodes st
  = first_occurrences (map node (ClaimProcessor.results st)).

(** A step from [w] to [w'] that keeps the lists consistent. *)
Definition keeps_consistent (w w' : World ClaimProcessor.HookState) : Prop :=
  consistent (state w) -> consistent (state w').

(** A line of a JSON-lines payload holds no line feed. *)
Definition single_line (line : jsstring) : Prop := ~ In JS.LF line.

(** A line that carries the record [r]. *)
Definition well_formed (line : jsstring) (r : StreamResult Data) : Prop :=
  JS.trim line <> [] /\ JSON_parse (JS.trim line) = Some r.

(** A line that carries no record: blank, or rejected by the parser. *)
Definition malformed (line : jsstring) : Prop :=
  JS.trim line = [] \/ JSON_parse (JS.trim line) = None.

(** The values written to [isProcessing], in order. *)
Fixpoint isProcessing_writes (es : list Effect) : list bool :=
  match es with
  | [] => []
  | SetIsProcessing value :: rest => value :: isProcessing_writes rest
  | _ :: rest => isProcessing_writes rest
  end.

(** A step from [w] to [w'] that leaves [isProcessing] alone: its value
    is the same and no write of it is among the new effects. *)
Definition leaves_isProcessing (w w' : World ClaimProcessor.HookState)
    : Prop :=
  ClaimProcessor.isProcessing (state w')
  = ClaimProcessor.isProcessing (state w) /\
  exists new, effects w' = effects w ++ new /\ isProcessing_writes new = [].

(** The texts shown by toasts and console calls. *)
Fixpoint shown (es : list Effect) : list jsstring :=
  match es with
  | [] => []
  | ConsoleWarn _ arg :: rest => arg :: shown rest
  | ConsoleErrorText _ arg :: rest => arg :: shown rest
  | ConsoleErrorThrown _ (JsError message) :: rest => message :: shown rest
  | ToastSuccess message :: rest => message :: shown rest
  | ToastError message :: rest => message :: shown rest
  | _ :: rest => shown rest
  end.

(** The error surface of the chat: the contents of its messages and what
    it logged. *)
Definition chat_surface (w : World ClaimChatBox.ChatState) : list jsstring :=
  map ClaimChatBox.content (ClaimChatBox.messages (state w))
  ++ shown (effects w).

(** Some text of the surface carries both the status and the body text of
    the failed response. *)
Definition captures (surface : list jsstring) (status : Z)
    (errorText : jsstring) : bool :=
  existsb (fun message =>
             JS.contains message (JS.number_toString status)
             && JS.contains message errorText) surface.

(** The id [handleSend] gives the placeholder it opens. *)
Definition assistantMessageId (clock : ClaimChatBox.Clock) : jsstring :=
  JS.number_toString (ClaimChatBox.assistant_now clock + 1).

(** The assistant turn opened at [clock], with the content it has. *)
Definition assistant_turn (clock : ClaimChatBox.Clock) (content : jsstring)
    : ClaimChatBox.Message :=
  {| ClaimChatBox.id := assistantMessageId clock;
     ClaimChatBox.role := ClaimChatBox.assistant;
     ClaimChatBox.content := content;
     ClaimChatBox.timestamp := ClaimChatBox.assistant_date clock |}.

(** The user message of a send of [question] at [clock]. *)
Definition user_turn (clock : ClaimChatBox.Clock) (question : jsstring)
    : ClaimChatBox.Message :=
  {| ClaimChatBox.id := JS.number_toString (ClaimChatBox.user_now clock);
     ClaimChatBox.role := ClaimChatBox.user;
     ClaimChatBox.content := question;
     ClaimChatBox.timestamp := ClaimChatBox.user_date clock |}.

(** A send is not blocked: the input is not blank and no request is in
    flight. *)
Definition sendable (w : World ClaimChatBox.ChatState) : Prop :=
  JS.truthy (JS.trim (ClaimChatBox.input (state w))) = true /\
  ClaimChatBox.isLoading (state w) = false.

(** The chat request fails after dispatch: the request is rejected, the
    response is not ok, or a read of the body is rejected. *)
Inductive chat_fails : Completion Response -> Prop :=
| fails_network e : chat_fails (Throw e)
| fails_status response :
    ok response = false -> chat_fails (Normal response)
| fails_read response received e :
    ok response = true ->
    body response = Some {| chunks := received; ending := Throw e |} ->
    chat_fails (Normal response).

(** The response and its body have settled: nothing is awaited forever. *)
Definition settled (net : Completion Response) : Prop :=
  match net with
  | Pending => False
  | Throw _ => True
  | Normal response =>
      if ok response then
        match body response with
        | Some reader => ending reader <> Pending
        | None => True
        end
      else text response <> Pending
  end.

End Vocabulary.
End Spec.

(* ================================================================= *)
(** ** A sample platform for the examples *)

Module Sample.

Fixpoint strip_prefix (prefix s : jsstring) : option jsstring :=
  match prefix, s with
  | [], _ => Some s
  | x :: prefix', y :: s' => if x =? y then strip_prefix prefix' s' else None
  | _ :: _, [] => None
  end.

(** The characters up to the closing quote (34) of a string without
    escapes (92), and what follows the quote. *)
Fixpoint until_quote (s : jsstring) : option (jsstring * jsstring) :=
  match s with
  | [] => None
  | c :: s' =>
      if c =? 34 then Some ([], s')
      else if c =? 92 then None
      else match until_quote s' with
           | Some (name, rest) => Some (c :: name, rest)
           | None => None
           end
  end.

(** A parser for records written exactly as an object with a "node" string
    member followed by a "data" member, the payload kept as its text. *)
Definition parse (s : jsstring) : option (StreamResult jsstring) :=
  match strip_prefix ([123; 34] ++ JS.lit "node" ++ [34; 58; 34]) s with
  | None => None
  | Some s1 =>
      match until_quote s1 with
      | None => None
      | Some (name, s2) =>
          match strip_prefix ([44; 34] ++ JS.lit "data" ++ [34; 58]) s2 with
          | None => None
          | Some s3 =>
              match rev s3 with
              | 125 :: payload => Some {| node := name; data := rev payload |}
              | _ => None
              end
          end
      end
  end.

Definition platform : Platform :=
  {| Data := jsstring;
     File := jsstring;
     JSON_parse := parse;
     claim_description := fun d => d;
     risk_assessment_report := fun _ => [];
     routing_decision_report := fun _ => [] |}.

(** The bytes of an ASCII text, written with ' for the double quote and
    | for the line feed. *)
Definition bytes (s : string) : TextDecoder.chunk :=
  map (fun b => match b with
                | x27 => x22
                | x7c => x0a
                | _ => b
                end) (list_byte_of_string s).

(** The same text as a string value. *)
Definition str (s : string) : jsstring :=
  map TextDecoder.byte_value (bytes s).

(** An ok response streaming [chunks] and then ending as [ending]. *)
Definition streaming (chunks : list TextDecoder.chunk)
    (ending : Completion unit) : Response :=
  {| ok := true; status := 200; text := Pending;
     body := Some {| chunks := chunks; ending := ending |} |}.

(** A response with a failure status and a readable body text. *)
Definition failure (status : Z) (errorText : string) : Response :=
  {| ok := false; status := status; text := Normal (JS.lit errorText);
     body := Some {| chunks := [bytes errorText]; ending := Normal tt |} |}.

#[local] Existing Instance platform.

Definition hook_world : World ClaimProcessor.HookState :=
  {| state := ClaimProcessor.initial; effects := [] |}.

Definition chat_world (input : string)
    : World (ClaimChatBox.ChatState) :=
  {| state := {| ClaimChatBox.messages :=
                   ClaimChatBox.messages (ClaimChatBox.initial 1000);
                 ClaimChatBox.input := JS.lit input;
                 ClaimChatBox.isLoading := false |};
     effects := [] |}.

Definition clock : ClaimChatBox.Clock :=
  {| ClaimChatBox.user_now := 2000; ClaimChatBox.user_date := 2000;
     ClaimChatBox.assistant_now := 2000; ClaimChatBox.assistant_date := 2001 |}.

(** Two well-formed lines with their records, and a malformed one. *)
Definition line_A : jsstring := str "{'node':'A','data':1}".
Definition line_B : jsstring := str "{'node':'B','data':2}".
Definition line_bad : jsstring := str "oops".

Definition record_A : StreamResult Data :=
  {| node := str "A"; data := str "1" |}.
Definition record_B : StreamResult Data :=
  {| node := str "B"; data := str "2" |}.

(** A second record of node A. *)
Definition record_A' : StreamResult Data :=
  {| node := str "A"; data := str "3" |}.

(** The three lines, each ended by a line feed, cut inside the first
    record and inside the malformed line. *)
Definition pieces : list TextDecoder.chunk :=
  [bytes "{'node':'A','da"; bytes "ta':1}|oo";
   bytes "ps|{'node':'B','data':2}|"].

(** Two lines, the second without a line feed, cut inside a character of
    three bytes (the euro sign) of the first payload. *)
Definition unterminated : list TextDecoder.chunk :=
  [bytes "{'node':'A','data':'" ++ [xe2; x82];
   [xac] ++ bytes "'}|{'node':'B','data':2}"].

(** The example payload of the progress stream. *)
Definition intake_and_risk : TextDecoder.chunk :=
  bytes "{'node':'Intake Node','data':{'member_id':'M1'}}|{'node':'Risk Analyze Node','data':{'risk_score':10}}|".

(** The chunks of the example answer of the chat. *)
Definition hello_world : list TextDecoder.chunk :=
  [bytes "Hel"; bytes "lo, "; bytes "world"].

End Sample.

(** A concrete line holds no line feed. *)
Ltac no_line_feed :=
  let H := fresh in
  vm_compute; intros H;
  repeat (destruct H as [H|H]; [discriminate H|]); exact H.

(** A concrete line carries a given record. *)
Ltac carries_record :=
  split; [vm_compute; discriminate|vm_compute; reflexivity].

(* ================================================================= *)
(** ** Components inside a page *)

Section Zoom.
Context {P : Platform} {S T : Type}.

(** A computation of a hook or component with state [T], run where that
    state is the part [part] of a larger state [S]. *)
Definition zoom (part : S -> T) (update : T -> S -> S) {A} (m : M T A)
    : M S A :=
  fun w =>
    let '(c, w') := m {| state := part (state w); effects := effects w |} in
    (c, {| state := update (state w') (state w); effects := effects w' |}).

(** The world [w] after the further effects [es]. *)
Definition logged (w : World S) (es : list Effect) : World S :=
  {| state := state w; effects := effects w ++ es |}.

End Zoom.

(* ================================================================= *)
(** ** The hook [useClaimsHistory] *)

Module ClaimsHistory.
Section Hook.
Context {P : Platform}.

Inductive Status := processing | completed | failed.

Record ClaimHistoryItem := {
  id : jsstring;
  claimText : jsstring;
  timestamp : Z;
  status : Status;
  summary : option jsstring
}.

(** What is stored under the key "claimflow-history": the serialised
    claims, kept as the list they parse back to, or a text that
    [JSON.parse] or the [map] over its result rejects with [e]. *)
Inductive Stored :=
| StoredClaims (items : list ClaimHistoryItem)
| Unparsable (e : Thrown).

Record HistoryState := {
  claims : list ClaimHistoryItem;
  selectedClaimId : option jsstring;
  localStorage : option Stored
}.

(** The state of a freshly mounted hook over a given storage. *)
Definition initial (stored : option Stored) : HistoryState :=
  {| claims := []; selectedClaimId := None; localStorage := stored |}.

Definition setClaims (items : list ClaimHistoryItem) : M HistoryState unit :=
  modify (fun st =>
    {| claims := items;
       selectedClaimId := selectedClaimId st;
       localStorage := localStorage st |}).

Definition setSelectedClaimId (value : option jsstring)
    : M HistoryState unit :=
  modify (fun st =>
    {| claims := claims st;
       selectedClaimId := value;
       localStorage := localStorage st |}).

(** [setClaims((prev) => { const updated = f(prev);
    localStorage.setItem(STORAGE_KEY, JSON.stringify(updated));
    return updated; })]. *)
Definition update_and_store
    (f : list ClaimHistoryItem -> list ClaimHistoryItem)
    : M HistoryState unit :=
  modify (fun st =>
    let updated := f (claims st) in
    {| claims := updated;
       selectedClaimId := selectedClaimId st;
       localStorage := Some (StoredClaims updated) |}).

(** The effect run on mount. *)
Definition load : M HistoryState unit :=
  st <- get ;;
  match localStorage st with
  | Some (StoredClaims items) => setClaims items
  | Some (Unparsable e) =>
      perform (ConsoleErrorThrown "Failed to parse claims history:" e)
  | None => ret tt
  end.

(** [a || b] on an optional string. *)
Definition or_else (a : option jsstring) (b : jsstring) : jsstring :=
  match a with
  | Some s => if JS.truthy s then s else b
  | None => b
  end.

(** [claimText.slice(0, 50) + (claimText.length > 50 ? "..." : "")]. *)
Definition default_summary (claimText : jsstring) : jsstring :=
  firstn 50 claimText
  ++ (if (50 <? List.length claimText)%nat then JS.lit "..." else []).

(** [saveClaim], with the id [crypto.randomUUID()] gives and the time of
    [new Date()]. *)
Definition saveClaim (claimText : jsstring) (summary : option jsstring)
    (uuid : jsstring) (now : Z) : M HistoryState jsstring :=
  let newClaim :=
    {| id := uuid;
       claimText := claimText;
       timestamp := now;
       status := processing;
       summary := Some (or_else summary (default_summary claimText)) |} in
  update_and_store (fun prev => newClaim :: prev) ;;
  setSelectedClaimId (Some uuid) ;;
  ret uuid.

Definition updateClaimStatus (claimId : jsstring) (value : Status)
    (summary' : option jsstring) : M HistoryState unit :=
  update_and_store (fun prev =>
    map (fun c =>
           if JS.eqb (id c) claimId
           then {| id := id c;
                   claimText := claimText c;
                   timestamp := timestamp c;
                   status := value;
                   summary :=
                     match summary' with
                     | Some s => if JS.truthy s then Some s else summary c
                     | None => summary c
                     end |}
           else c) prev).

(** [deleteClaim], the selection being the one of the render the callback
    was created for, read here from the current state. *)
Definition deleteClaim (claimId : jsstring) : M HistoryState unit :=
  st <- get ;;
  update_and_store (filter (fun c => negb (JS.eqb (id c) claimId))) ;;
  match selectedClaimId st with
  | Some selected =>
      if JS.eqb selected claimId then setSelectedClaimId None else ret tt
  | None => ret tt
  end.

Definition clearHistory : M HistoryState unit :=
  setClaims [] ;;
  setSelectedClaimId None ;;
  modify (fun st =>
    {| claims := claims st;
       selectedClaimId := selectedClaimId st;
       localStorage := None |}).

End Hook.
End ClaimsHistory.

(* ================================================================= *)
(** ** The page [Index] *)

(** What the page and the form read from a [File]. *)
Class FileAPI {P : Platform} := {
  file_name : File -> jsstring;
  file_type : File -> jsstring
}.

Module Index.
Section Page.
Context {P : Platform} {F : FileAPI}.

Record PageState := {
  processor : ClaimProcessor.HookState;
  history : ClaimsHistory.HistoryState;
  hasStarted : bool;
  isChatOpen : bool
}.

Definition with_processor (p : ClaimProcessor.HookState) (st : PageState)
    : PageState :=
  {| processor := p; history := history st;
     hasStarted := hasStarted st; isChatOpen := isChatOpen st |}.

Definition with_history (h : ClaimsHistory.HistoryState) (st : PageState)
    : PageState :=
  {| processor := processor st; history := h;
     hasStarted := hasStarted st; isChatOpen := isChatOpen st |}.

(** A call into [useClaimProcessor] or [useClaimsHistory]. *)
Definition in_processor {A} (m : M ClaimProcessor.HookState A)
    : M PageState A :=
  zoom processor with_processor m.

Definition in_history {A} (m : M ClaimsHistory.HistoryState A)
    : M PageState A :=
  zoom history with_history m.

Definition setHasStarted (value : bool) : M PageState unit :=
  modify (fun st =>
    {| processor := processor st; history := history st;
       hasStarted := value; isChatOpen := isChatOpen st |}).

(** [handleSubmit], with the id and the time [saveClaim] takes and the
    state [net] of the request. *)
Definition handleSubmit (claimText uuid : jsstring) (now : Z)
    (net : Completion Response) : M PageState unit :=
  setHasStarted true ;;
  claimId <- in_history (ClaimsHistory.saveClaim claimText None uuid now) ;;
  try_catch
    (in_processor (ClaimProcessor.processClaim claimText net) ;;
     in_history
       (ClaimsHistory.updateClaimStatus claimId ClaimsHistory.completed None))
    (fun _ =>
       in_history
         (ClaimsHistory.updateClaimStatus claimId ClaimsHistory.failed None)).

Definition handleFileSubmit (file : File) (uuid : jsstring) (now : Z)
    (net : Completion Response) : M PageState unit :=
  setHasStarted true ;;
  claimId <- in_history
               (ClaimsHistory.saveClaim
                  (JS.lit "[File Upload] " ++ file_name file) None uuid now) ;;
  try_catch
    (in_processor (ClaimProcessor.processFile file net) ;;
     in_history
       (ClaimsHistory.updateClaimStatus claimId ClaimsHistory.completed None))
    (fun _ =>
       in_history
         (ClaimsHistory.updateClaimStatus claimId ClaimsHistory.failed None)).

(** [handleSelectClaim]: [claims.find(c => c.id === id)] decides. *)
Definition handleSelectClaim (claimId : jsstring) : M PageState unit :=
  st <- get ;;
  match find (fun c => JS.eqb (ClaimsHistory.id c) claimId)
             (ClaimsHistory.claims (history st)) with
  | Some _ =>
      in_history (ClaimsHistory.setSelectedClaimId (Some claimId)) ;;
      setHasStarted true
  | None => ret tt
  end.

End Page.
End Index.

(* ================================================================= *)
(** ** The component [ProcessingStepper] *)

Module ProcessingStepper.

Inductive StepStatus := pending | active | completed.

Record ProcessingStep := {
  id : jsstring;
  label : jsstring
}.

Definition steps : list ProcessingStep :=
  [ {| id := JS.lit "Intake Node"; label := JS.lit "Data Extraction" |};
    {| id := JS.lit "Policy Node"; label := JS.lit "Policy Check" |};
    {| id := JS.lit "Risk Analyze Node"; label := JS.lit "Risk Analysis" |};
    {| id := JS.lit "Routing Node"; label := JS.lit "Final Routing" |} ].

Definition getStepStatus (completedNodes : list jsstring)
    (isProcessing : bool) (stepId : jsstring) (index : nat) : StepStatus :=
  if JS.includes completedNodes stepId then completed
  else
    let completedCount :=
      List.length
        (filter (fun s => JS.includes completedNodes (id s)) steps) in
    if isProcessing && (index =? completedCount)%nat then active
    else pending.

(** [xs.map((x, index) => f x index)], counting from [index]. *)
Fixpoint map_index {A B} (f : A -> nat -> B) (xs : list A) (index : nat)
    : list B :=
  match xs with
  | [] => []
  | x :: rest => f x index :: map_index f rest (Datatypes.S index)
  end.

(** The status each step is rendered with. *)
Definition render (completedNodes : list jsstring) (isProcessing : bool)
    : list StepStatus :=
  map_index (fun step index =>
               getStepStatus completedNodes isProcessing (id step) index)
            steps 0%nat.

End ProcessingStepper.

(* ================================================================= *)
(** ** The component [ClaimInput] *)

Module ClaimInput.
Section Component.
Context {P : Platform} {F : FileAPI}.

Inductive InputMode := text_mode | file_mode.

Record FormState := {
  claimText : jsstring;
  error : jsstring;
  inputMode : InputMode;
  selectedFile : option File;
  dragActive : bool
}.

Definition initial : FormState :=
  {| claimText := []; error := []; inputMode := text_mode;
     selectedFile := None; dragActive := false |}.

(** The form is mounted in a page of state [S]; [onSubmit] and
    [onFileSubmit] are the props of the same names, each with what a call
    of it does before it returns or throws. *)
Context {S : Type}.
Variable form : S -> FormState.
Variable with_form : FormState -> S -> S.
Variable onSubmit : jsstring -> M S unit.
Variable onFileSubmit : File -> M S unit.

Definition setClaimText (value : jsstring) : M S unit :=
  modify (fun st =>
    with_form {| claimText := value; error := error (form st);
                 inputMode := inputMode (form st);
                 selectedFile := selectedFile (form st);
                 dragActive := dragActive (form st) |} st).

Definition setError (value : jsstring) : M S unit :=
  modify (fun st =>
    with_form {| claimText := claimText (form st); error := value;
                 inputMode := inputMode (form st);
                 selectedFile := selectedFile (form st);
                 dragActive := dragActive (form st) |} st).

Definition setInputMode (value : InputMode) : M S unit :=
  modify (fun st =>
    with_form {| claimText := claimText (form st); error := error (form st);
                 inputMode := value;
                 selectedFile := selectedFile (form st);
                 dragActive := dragActive (form st) |} st).

Definition setSelectedFile (value : option File) : M S unit :=
  modify (fun st =>
    with_form {| claimText := claimText (form st); error := error (form st);
                 inputMode := inputMode (form st);
                 selectedFile := value;
                 dragActive := dragActive (form st) |} st).

Definition setDragActive (value : bool) : M S unit :=
  modify (fun st =>
    with_form {| claimText := claimText (form st); error := error (form st);
                 inputMode := inputMode (form st);
                 selectedFile := selectedFile (form st);
                 dragActive := value |} st).

Definition handleSubmit : M S unit :=
  st <- get ;;
  match inputMode (form st) with
  | text_mode =>
      if negb (JS.truthy (JS.trim (claimText (form st)))) then
        setError (JS.lit "Please enter claim details before processing.")
      else
        setError [] ;;
        onSubmit (claimText (form st))
  | file_mode =>
      match selectedFile (form st) with
      | None => setError (JS.lit "Please select a file before processing.")
      | Some file =>
          setError [] ;;
          onFileSubmit file
      end
  end.

Definition allowedTypes : list jsstring :=
  [JS.lit "image/jpeg"; JS.lit "image/png"; JS.lit "image/gif";
   JS.lit "image/webp"; JS.lit "image/bmp"; JS.lit "application/pdf"].

Definition handleFileSelect (file : File) : M S unit :=
  if negb (JS.includes allowedTypes (file_type file)) then
    setError
      (JS.lit "Please select an image (JPG, PNG, GIF, WebP) or PDF file.")
  else
    setError [] ;;
    setSelectedFile (Some file).

(** [handleFileChange], on [e.target.files?.[0]]. *)
Definition handleFileChange (first : option File) : M S unit :=
  match first with
  | Some file => handleFileSelect file
  | None => ret tt
  end.

(** The [type] of the event: one of the three the handler is bound to,
    or any other. *)
Inductive DragEventType := dragenter | dragover | dragleave | other.

Definition handleDrag (type : DragEventType) : M S unit :=
  match type with
  | dragenter | dragover => setDragActive true
  | dragleave => setDragActive false
  | other => ret tt
  end.

(** [handleDrop], on [e.dataTransfer.files?.[0]]. *)
Definition handleDrop (first : option File) : M S unit :=
  setDragActive false ;;
  match first with
  | Some file => handleFileSelect file
  | None => ret tt
  end.

(** [clearFile]; the reset of the file input element is left out. *)
Definition clearFile : M S unit :=
  setSelectedFile None.

(** The [onChange] of the text area. *)
Definition handleTextChange (value : jsstring) : M S unit :=
  st <- get ;;
  setClaimText value ;;
  if JS.truthy (error (form st)) then setError [] else ret tt.

End Component.
End ClaimInput.

(* ================================================================= *)
(** ** Vocabulary of further properties *)

Module Props.
Section Vocabulary.
Context {P : Platform}.

(** The record a line carries, if any. *)
Definition record_of_line (line : jsstring) : option (StreamResult Data) :=
  if JS.truthy (JS.trim line) then JSON_parse (JS.trim line) else None.

(** The records of the lines that carry one, in order. *)
Fixpoint records_of (lines : list jsstring) : list (StreamResult Data) :=
  match lines with
  | [] => []
  | line :: rest =>
      match record_of_line line with
      | Some r => r :: records_of rest
      | None => records_of rest
      end
  end.

(** A line that is not blank and that the parser rejects. *)
Definition unparsable (line : jsstring) : bool :=
  JS.truthy (JS.trim line) &&
  match JSON_parse (JS.trim line) with
  | Some _ => false
  | None => true
  end.

Definition is_warning (e : Effect) : Prop :=
  match e with
  | ConsoleWarn _ _ => True
  | _ => False
  end.

(** From [w] to [w'] the two lists of the hook have only grown at their
    ends. *)
Definition extends (w w' : World ClaimProcessor.HookState) : Prop :=
  (exists more,
     ClaimProcessor.results (state w')
     = ClaimProcessor.results (state w) ++ more) /\
  (exists more,
     ClaimProcessor.completedNodes (state w')
     = ClaimProcessor.completedNodes (state w) ++ more).

(** The toasts among some effects. *)
Fixpoint toasts (es : list Effect) : list Effect :=
  match es with
  | [] => []
  | ToastSuccess message :: rest => ToastSuccess message :: toasts rest
  | ToastError message :: rest => ToastError message :: toasts rest
  | _ :: rest => toasts rest
  end.

(** The segments of the text a response body has delivered. *)
Definition delivered_lines (reader : BodyStream) : list jsstring :=
  JS.split (TextDecoder.decode_text (chunks reader)).

(** The error a settled submission ends in, if any: the rejection of the
    request, the error made from a failure status (or the rejection of the
    read of its text), the missing reader, or the rejection of a read. *)
Definition submission_error (net : Completion Response) : option Thrown :=
  match net with
  | Throw e => Some e
  | Pending => None
  | Normal response =>
      if ok response then
        match body response with
        | None =>
            Some (JsError (JS.lit "No response body reader available"))
        | Some reader =>
            match ending reader with
            | Throw e => Some e
            | _ => None
            end
        end
      else
        match text response with
        | Normal errorText =>
            Some (JsError (JS.lit "HTTP error! status: "
                           ++ JS.number_toString (status response)
                           ++ JS.lit " - " ++ errorText))
        | Throw e => Some e
        | Pending => None
        end
  end.

(** The records a submission has appended: those of all delivered lines
    when the body has ended, those of the lines before the last line feed
    otherwise, none without an ok response with a body. *)
Definition submitted_records (net : Completion Response)
    : list (StreamResult Data) :=
  match net with
  | Normal response =>
      if ok response then
        match body response with
        | Some reader =>
            match ending reader with
            | Normal _ => records_of (delivered_lines reader)
            | _ => records_of (removelast (delivered_lines reader))
            end
        | None => []
        end
      else []
  | _ => []
  end.

(** The chat request has settled; the text of a failure response is not
    read by the chat. *)
Definition chat_settled (net : Completion Response) : Prop :=
  match net with
  | Pending => False
  | Throw _ => True
  | Normal response =>
      if ok response then
        match body response with
        | Some reader => ending reader <> Pending
        | None => True
        end
      else True
  end.

(** The error a chat send catches, if any. *)
Definition chat_error (net : Completion Response) : option Thrown :=
  match net with
  | Throw e => Some e
  | Pending => None
  | Normal response =>
      if ok response then
        match body response with
        | Some reader =>
            match ending reader with
            | Throw e => Some e
            | _ => None
            end
        | None => None
        end
      else Some (JsError (JS.lit "Failed to get response from chat API"))
  end.

(** The content a chat send has written to the turn it opened, if it has
    written any: the apology after an error, else the text decoded from
    the chunks read, if any was read. *)
Definition chat_content (net : Completion Response) : option jsstring :=
  match chat_error net with
  | Some _ => Some ClaimChatBox.apology
  | None =>
      match net with
      | Normal response =>
          match body response with
          | Some reader =>
              match chunks reader with
              | [] => None
              | _ :: _ => Some (TextDecoder.decode_text (chunks reader))
              end
          | None => None
          end
      | _ => None
      end
  end.

(** The messages once a send has appended the question and the
    placeholder. *)
Definition opened (clock : ClaimChatBox.Clock)
    (w : World ClaimChatBox.ChatState) : list ClaimChatBox.Message :=
  ClaimChatBox.messages (state w)
  ++ [Spec.user_turn clock (ClaimChatBox.input (state w));
      Spec.assistant_turn clock []].

(** The fetches among some effects. *)
Fixpoint fetches (es : list Effect) : list Effect :=
  match es with
  | [] => []
  | Fetch endpoint request :: rest => Fetch endpoint request :: fetches rest
  | _ :: rest => fetches rest
  end.

(** The ids of the history are pairwise distinct. *)
Definition unique_ids (items : list ClaimsHistory.ClaimHistoryItem) : Prop :=
  NoDup (map ClaimsHistory.id items).

(** The item [saveClaim] makes. *)
Definition new_claim (claimText uuid : jsstring) (now : Z)
    (value : ClaimsHistory.Status) : ClaimsHistory.ClaimHistoryItem :=
  {| ClaimsHistory.id := uuid;
     ClaimsHistory.claimText := claimText;
     ClaimsHistory.timestamp := now;
     ClaimsHistory.status := value;
     ClaimsHistory.summary :=
       Some (ClaimsHistory.default_summary claimText) |}.

(** The item [c] after [updateClaimStatus claimId value] without a
    summary. *)
Definition mark (claimId : jsstring) (value : ClaimsHistory.Status)
    (c : ClaimsHistory.ClaimHistoryItem) : ClaimsHistory.ClaimHistoryItem :=
  if JS.eqb (ClaimsHistory.id c) claimId
  then {| ClaimsHistory.id := ClaimsHistory.id c;
          ClaimsHistory.claimText := ClaimsHistory.claimText c;
          ClaimsHistory.timestamp := ClaimsHistory.timestamp c;
          ClaimsHistory.status := value;
          ClaimsHistory.summary := ClaimsHistory.summary c |}
  else c.

(** A hook mounted anew over what [st] has left in the storage. *)
Definition remounted (st : ClaimsHistory.HistoryState)
    : World ClaimsHistory.HistoryState :=
  {| state := ClaimsHistory.initial (ClaimsHistory.localStorage st);
     effects := [] |}.

(** How many steps are rendered with a given status. *)
Definition count_status (s : ProcessingStepper.StepStatus)
    (l : list ProcessingStepper.StepStatus) : nat :=
  List.length
    (filter (fun x =>
               match s, x with
               | ProcessingStepper.pending, ProcessingStepper.pending
               | ProcessingStepper.active, ProcessingStepper.active
               | ProcessingStepper.completed, ProcessingStepper.completed =>
                   true
               | _, _ => false
               end) l).

(** The steps completed are the first [k] of the pipeline. *)
Definition first_completed (k : nat) (completedNodes : list jsstring)
    : Prop :=
  map (fun step => JS.includes completedNodes (ProcessingStepper.id step))
      ProcessingStepper.steps
  = map (fun index => (index <? k)%nat) [0; 1; 2; 3]%nat.

(** The selected file of the form, if any, has an allowed type. *)
Definition file_allowed {F : FileAPI} (st : ClaimInput.FormState) : Prop :=
  match ClaimInput.selectedFile st with
  | Some file =>
      JS.includes ClaimInput.allowedTypes (file_type file) = true
  | None => True
  end.

End Vocabulary.
End Props.

(* ================================================================= *)
(** ** Further sample data *)

Module SampleMore.

#[local] Existing Instance Sample.platform.

(** Files are their names; a name holding ".pdf" is a PDF, any other a
    plain text. *)
Definition files : FileAPI :=
  {| file_name := fun f : File => f;
     file_type := fun f : File =>
       if JS.contains f (JS.lit ".pdf") then JS.lit "application/pdf"
       else JS.lit "text/plain" |}.

#[local] Existing Instance files.

Definition item (uuid : string) (value : ClaimsHistory.Status)
    : ClaimsHistory.ClaimHistoryItem :=
  Props.new_claim (JS.lit "older claim") (JS.lit uuid) 500 value.

Definition history_world : World ClaimsHistory.HistoryState :=
  {| state :=
       {| ClaimsHistory.claims :=
            [item "b" ClaimsHistory.failed; item "a" ClaimsHistory.completed];
          ClaimsHistory.selectedClaimId := Some (JS.lit "b");
          ClaimsHistory.localStorage := None |};
     effects := [] |}.

Definition page_world : World Index.PageState :=
  {| state :=
       {| Index.processor := ClaimProcessor.initial;
          Index.history := state history_world;
          Index.hasStarted := false;
          Index.isChatOpen := false |};
     effects := [] |}.

(** A response with an ok status and no body. *)
Definition bodiless : Response :=
  {| ok := true; status := 200; text := Pending; body := None |}.

(** The record of the first line of [Sample.unterminated]. *)
Definition record_euro : StreamResult Data :=
  {| node := Sample.str "A"; data := [34; 0x20AC; 34] |}.

(** A claim text of sixty characters. *)
Definition long_text : jsstring :=
  JS.lit "A claim description that is a little longer than fifty chars".

(** A form alone, with some text typed. *)
Definition form_world (typed : string) : World ClaimInput.FormState :=
  {| state :=
       {| ClaimInput.claimText := JS.lit typed;
          ClaimInput.error := [];
          ClaimInput.inputMode := ClaimInput.text_mode;
          ClaimInput.selectedFile := None;
          ClaimInput.dragActive := false |};
     effects := [] |}.

End SampleMore.

(** The state updates of the chat box, run. *)
Ltac chat_run :=
  cbn [bind perform ret throw modify fst snd state effects
       ClaimChatBox.setMessages ClaimChatBox.setIsLoading
       ClaimChatBox.setInput ClaimChatBox.messages ClaimChatBox.input
       ClaimChatBox.isLoading].

(* ================================================================= *)
(** ** Facts about strings *)

Lemma last_app_nonempty {A} (l l' : list A) (d : A) :
  l' <> [] -> last (l ++ l') d = last l' d.
Proof.
  intros Hn. destruct (exists_last Hn) as [l0 [x ->]].
  now rewrite app_assoc, !last_last.
Qed.

Module JSFacts.
Import JS.

Lemma eqb_refl (a : jsstring) : eqb a a = true.
Proof.
  induction a as [|x a IH]; simpl; [reflexivity|].
  now rewrite Z.eqb_refl, IH.
Qed.

Lemma eqb_eq (a b : jsstring) : eqb a b = true <-> a = b.
Proof.
  split.
  - revert b; induction a as [|x a IH]; intros [|y b] H; simpl in H;
      try discriminate; [reflexivity|].
    apply andb_true_iff in H as [Hxy Hab].
    apply Z.eqb_eq in Hxy. apply IH in Hab. now subst.
  - intros ->. apply eqb_refl.
Qed.

Lemma eqb_neq (a b : jsstring) : eqb a b = false <-> a <> b.
Proof.
  split.
  - intros H ->. rewrite eqb_refl in H. discriminate.
  - intros H. destruct (eqb a b) eqn:E; [|reflexivity].
    apply eqb_eq in E. contradiction.
Qed.

Lemma includes_In (prev : list jsstring) (x : jsstring) :
  includes prev x = true <-> In x prev.
Proof.
  unfold includes. rewrite existsb_exists. split.
  - intros [y [Hin Heq]]. apply eqb_eq in Heq. now subst.
  - intros Hin. exists x. split; [assumption|apply eqb_refl].
Qed.

Lemma includes_not_In (prev : list jsstring) (x : jsstring) :
  includes prev x = false <-> ~ In x prev.
Proof.
  rewrite <- includes_In. destruct (includes prev x); split; intros H;
    try discriminate; try reflexivity; try (intros H'; discriminate).
  exfalso. now apply H.
Qed.

Lemma truthy_false (s : jsstring) : truthy s = false <-> s = [].
Proof.
  destruct s; simpl; split; intros H; try reflexivity; discriminate.
Qed.

Lemma truthy_true (s : jsstring) : truthy s = true <-> s <> [].
Proof.
  destruct s; simpl; split; intros H; try reflexivity; try discriminate.
  now contradiction H.
Qed.

(** *** [split] *)

Lemma split_not_nil (s : jsstring) : split s <> [].
Proof.
  destruct s as [|c s]; simpl; [discriminate|].
  destruct (c =? LF); [discriminate|].
  destruct (split s); discriminate.
Qed.

Lemma split_cons_LF (s : jsstring) : split (LF :: s) = [] :: split s.
Proof. reflexivity. Qed.

Lemma split_cons_other (c : Z) (s seg : jsstring) (segs : list jsstring) :
  c <> LF -> split s = seg :: segs -> split (c :: s) = (c :: seg) :: segs.
Proof.
  intros Hc Hs. simpl. apply Z.eqb_neq in Hc. now rewrite Hc, Hs.
Qed.

(** A text without line feed is its own single segment. *)
Lemma split_single (s : jsstring) : ~ In LF s -> split s = [s].
Proof.
  induction s as [|c s IH]; intros H; [reflexivity|].
  simpl in H.
  assert (Hc : c <> LF) by (intros ->; apply H; now left).
  rewrite (split_cons_other c s s []); auto.
Qed.

(** The segments of [a ++ b]: those of [a], the last one continued by
    [b]. *)
Lemma split_app (a b : jsstring) :
  split (a ++ b) = removelast (split a) ++ split (last (split a) [] ++ b).
Proof.
  induction a as [|c a IH]; [reflexivity|].
  rewrite <- app_comm_cons.
  destruct (Z.eq_dec c LF) as [->|Hc].
  - rewrite !split_cons_LF, IH.
    destruct (split a) as [|seg segs] eqn:E;
      [now destruct (split_not_nil a)|].
    reflexivity.
  - destruct (split a) as [|seg segs] eqn:E;
      [now destruct (split_not_nil a)|].
    rewrite (split_cons_other c a seg segs Hc E).
    destruct segs as [|seg' segs'].
    + simpl in IH. simpl removelast. simpl last. rewrite app_nil_l.
      rewrite <- app_comm_cons.
      destruct (split (seg ++ b)) as [|t ts] eqn:E';
        [now destruct (split_not_nil (seg ++ b))|].
      rewrite (split_cons_other c (a ++ b) t ts Hc IH).
      now rewrite (split_cons_other c (seg ++ b) t ts Hc E').
    + change (removelast ((c :: seg) :: seg' :: segs'))
        with ((c :: seg) :: removelast (seg' :: segs')).
      change (last ((c :: seg) :: seg' :: segs') [])
        with (last (seg' :: segs') []).
      change (removelast (seg :: seg' :: segs'))
        with (seg :: removelast (seg' :: segs')) in IH.
      change (last (seg :: seg' :: segs') [])
        with (last (seg' :: segs') []) in IH.
      rewrite <- app_comm_cons in IH |- *.
      now apply split_cons_other.
Qed.

(** No segment holds a line feed. *)
Lemma split_segments (s : jsstring) :
  Forall (fun seg => ~ In LF seg) (split s).
Proof.
  induction s as [|c s IH]; simpl.
  - constructor; [intros []|constructor].
  - destruct (c =? LF) eqn:E.
    + constructor; [intros []|assumption].
    + destruct (split s) as [|seg segs]; inversion IH; subst.
      * constructor; [|constructor]. intros [->|[]]. now rewrite Z.eqb_refl in E.
      * constructor; [|assumption].
        intros [->|Hin]; [now rewrite Z.eqb_refl in E|contradiction].
Qed.

Lemma split_last_single (s : jsstring) : ~ In LF (last (split s) []).
Proof.
  pose proof (split_segments s) as H.
  pose proof (split_not_nil s) as Hn.
  destruct (exists_last Hn) as [l [x E]]. rewrite E in *.
  rewrite last_last. apply Forall_app in H as [_ H]. now inversion H.
Qed.

Lemma split_line_then (l rest : jsstring) :
  ~ In LF l -> split (l ++ LF :: rest) = l :: split rest.
Proof.
  intros Hl. induction l as [|c l IHl]; [reflexivity|].
  rewrite <- app_comm_cons.
  apply split_cons_other.
  - intros ->. apply Hl. now left.
  - apply IHl. intros Hin. apply Hl. now right.
Qed.

(** Splitting the joined lines gives the lines back. *)
Lemma split_join (lines : list jsstring) :
  lines <> [] -> Forall (fun seg => ~ In LF seg) lines ->
  split (join lines) = lines.
Proof.
  induction lines as [|l lines IH]; intros Hn H; [contradiction|].
  inversion H as [|? ? Hl Hrest]; subst.
  destruct lines as [|l' lines'].
  - simpl. now apply split_single.
  - change (join (l :: l' :: lines')) with (l ++ LF :: join (l' :: lines')).
    rewrite (split_line_then l _ Hl), IH;
      [reflexivity|discriminate|assumption].
Qed.

Lemma split_join_LF (lines : list jsstring) :
  lines <> [] -> Forall (fun seg => ~ In LF seg) lines ->
  split (join lines ++ [LF]) = lines ++ [[]].
Proof.
  intros Hn H. rewrite split_app, (split_join lines Hn H).
  destruct (exists_last Hn) as [l [x E]]. rewrite E.
  rewrite removelast_last, last_last.
  rewrite E in H. apply Forall_app in H as [_ H].
  inversion H as [|? ? Hx _]; subst.
  rewrite (split_line_then x [] Hx), <- app_assoc. reflexivity.
Qed.

End JSFacts.

(* ================================================================= *)
(** ** Facts about the decoder *)

Module TextDecoderFacts.
Import TextDecoder.

Lemma with_BOM_seen_id (d : t) : with_BOM_seen d (BOM_seen d) = d.
Proof. now destruct d. Qed.

(** The UTF-8 handler neither reads nor writes the BOM flag. *)
Lemma lead_with_BOM_seen (d : t) (seen : bool) (b : Z) :
  lead (with_BOM_seen d seen) b
  = (with_BOM_seen (fst (lead d b)) seen, snd (lead d b)).
Proof.
  unfold lead.
  repeat match goal with
         | |- context [if ?c then _ else _] => destruct c
         end; reflexivity.
Qed.

Lemma handler_with_BOM_seen (d : t) (seen : bool) (b : Z) :
  handler (with_BOM_seen d seen) b
  = (with_BOM_seen (fst (handler d b)) seen, snd (handler d b)).
Proof.
  unfold handler. cbn [bytes_needed lower_boundary upper_boundary
                       code_point bytes_seen with_BOM_seen BOM_seen].
  destruct (bytes_needed d =? 0).
  - apply lead_with_BOM_seen.
  - destruct (negb ((lower_boundary d <=? b) && (b <=? upper_boundary d))).
    + change (clear (with_BOM_seen d seen))
        with (with_BOM_seen (clear d) seen).
      rewrite lead_with_BOM_seen.
      now destruct (lead (clear d) b).
    + destruct (bytes_seen d + 1 =? bytes_needed d); reflexivity.
Qed.

Lemma run_with_BOM_seen (bytes : chunk) (d : t) (seen : bool) :
  run (with_BOM_seen d seen) bytes
  = (with_BOM_seen (fst (run d bytes)) seen, snd (run d bytes)).
Proof.
  revert d. induction bytes as [|b bytes IH]; intros d; [reflexivity|].
  simpl. rewrite handler_with_BOM_seen.
  destruct (handler d (byte_value b)) as [d1 out1]. simpl.
  rewrite IH. now destruct (run d1 bytes).
Qed.

Lemma run_BOM_seen (bytes : chunk) (d : t) :
  BOM_seen (fst (run d bytes)) = BOM_seen d.
Proof.
  rewrite <- (with_BOM_seen_id d) at 1.
  rewrite run_with_BOM_seen. reflexivity.
Qed.

Lemma run_app (a b : chunk) (d : t) :
  run d (a ++ b)
  = (fst (run (fst (run d a)) b), snd (run d a) ++ snd (run (fst (run d a)) b)).
Proof.
  revert d. induction a as [|x a IH]; intros d.
  - simpl. now destruct (run d b).
  - simpl. destruct (handler d (byte_value x)) as [d1 out1].
    rewrite IH. destruct (run d1 a) as [d2 out2]. simpl.
    destruct (run d2 b) as [d3 out3]. simpl. now rewrite app_assoc.
Qed.

Lemma serialize_app (a b : list Z) (seen : bool) :
  serialize seen (a ++ b)
  = (fst (serialize (fst (serialize seen a)) b),
     snd (serialize seen a) ++ snd (serialize (fst (serialize seen a)) b)).
Proof.
  revert seen. induction a as [|cp a IH]; intros seen.
  - simpl. now destruct (serialize seen b).
  - cbn [serialize app]. rewrite IH.
    destruct (serialize true a) as [s1 t1].
    destruct (negb seen && (cp =? 0xFEFF)); cbn [fst snd];
      destruct (serialize s1 b) as [s2 t2]; cbn [fst snd];
      [reflexivity|now rewrite app_assoc].
Qed.

(** Decoding a chunk in two parts gives the same decoder and text. *)
Lemma decode_app (a b : chunk) (d : t) :
  decode d (a ++ b)
  = (fst (decode (fst (decode d a)) b),
     snd (decode d a) ++ snd (decode (fst (decode d a)) b)).
Proof.
  unfold decode. rewrite run_app.
  destruct (run d a) as [d1 o1] eqn:E1. simpl.
  pose proof (run_BOM_seen a d) as B1. rewrite E1 in B1. simpl in B1.
  destruct (serialize (BOM_seen d1) o1) as [s1 t1] eqn:S1. simpl.
  rewrite run_with_BOM_seen.
  destruct (run d1 b) as [d2 o2] eqn:E2. simpl.
  pose proof (run_BOM_seen b d1) as B2. rewrite E2 in B2. simpl in B2.
  rewrite serialize_app, B2, S1. simpl.
  destruct (serialize s1 o2) as [s2 t2]. reflexivity.
Qed.

Lemma decode_nil (d : t) : decode d [] = (d, []).
Proof. unfold decode. simpl. now rewrite with_BOM_seen_id. Qed.

(** Decoding chunk after chunk is decoding their concatenation. *)
Lemma decode_chunks_concat (chunks : list chunk) (d : t) :
  decode_chunks d chunks = decode d (List.concat chunks).
Proof.
  revert d. induction chunks as [|c chunks IH]; intros d.
  - simpl. now rewrite decode_nil.
  - simpl. rewrite decode_app. destruct (decode d c) as [d1 s1]. simpl.
    rewrite IH. now destruct (decode d1 (List.concat chunks)).
Qed.

Lemma decode_text_concat (chunks : list chunk) :
  decode_text chunks = decode_text [List.concat chunks].
Proof.
  unfold decode_text. rewrite !decode_chunks_concat. simpl.
  now rewrite app_nil_r.
Qed.

End TextDecoderFacts.

(* ================================================================= *)
(** ** Facts about the monad *)

Section MonadFacts.
Context {P : Platform} {S : Type}.

Lemma run_eq {A} (m : M S A) (w : World S) :
  m w = (completion m w, exec m w).
Proof. unfold completion, exec. now destruct (m w). Qed.

Lemma bind_normal {A B} (m : M S A) (k : A -> M S B) (w : World S) (a : A) :
  completion m w = Normal a -> bind m k w = k a (exec m w).
Proof.
  unfold completion, exec, bind. destruct (m w) as [c w']. simpl.
  now intros ->.
Qed.

(** A loop whose body always completes normally runs it on every
    element in turn. *)
Lemma for_of_normal {A} (body : A -> M S unit) (xs : list A) (w : World S) :
  (forall x w', completion (body x) w' = Normal tt) ->
  for_of xs body w
  = (Normal tt, fold_left (fun w' x => exec (body x) w') xs w).
Proof.
  intros Hbody. revert w. induction xs as [|x xs IH]; intros w.
  - reflexivity.
  - simpl. rewrite (bind_normal _ _ _ tt) by apply Hbody. apply IH.
Qed.

Lemma for_of_app {A} (body : A -> M S unit) (xs ys : list A) (w : World S) :
  (forall x w', completion (body x) w' = Normal tt) ->
  exec (for_of (xs ++ ys) body) w
  = exec (for_of ys body) (exec (for_of xs body) w).
Proof.
  intros Hbody. unfold exec at 1 2 3.
  rewrite !for_of_normal by assumption. simpl.
  apply fold_left_app.
Qed.

Lemma for_of_completion {A} (body : A -> M S unit) (xs : list A)
    (w : World S) :
  (forall x w', completion (body x) w' = Normal tt) ->
  completion (for_of xs body) w = Normal tt.
Proof.
  intros Hbody. unfold completion. now rewrite for_of_normal.
Qed.

End MonadFacts.

(* ================================================================= *)
(** ** Facts about the hook *)

Module ClaimProcessorFacts.
Import ClaimProcessor Spec.
Section Facts.
Context {P : Platform}.

Lemma append_record_run (parsed : StreamResult Data) (w : World HookState) :
  append_record parsed w
  = (Normal tt,
     {| state :=
          {| isProcessing := isProcessing (state w);
             results := results (state w) ++ [parsed];
             completedNodes :=
               if JS.includes (completedNodes (state w)) (node parsed)
               then completedNodes (state w)
               else completedNodes (state w) ++ [node parsed] |};
        effects := effects w |}).
Proof. reflexivity. Qed.

(** A line never makes the loop throw. *)
Lemma process_line_completion (line : jsstring) (w : World HookState) :
  completion (process_line line) w = Normal tt.
Proof.
  unfold process_line.
  destruct (negb (JS.truthy (JS.trim line))); [reflexivity|].
  destruct (JSON_parse (JS.trim line)); reflexivity.
Qed.

Lemma flush_completion (buffer : jsstring) (w : World HookState) :
  completion (flush buffer) w = Normal tt.
Proof.
  unfold flush.
  destruct (JS.truthy (JS.trim buffer)); [|reflexivity].
  destruct (JSON_parse (JS.trim buffer)); reflexivity.
Qed.

(** The flush updates the state as the loop body would. *)
Lemma flush_state (buffer : jsstring) (w : World HookState) :
  state (exec (flush buffer) w) = state (exec (process_line buffer) w).
Proof.
  unfold flush, process_line.
  destruct (JS.truthy (JS.trim buffer)); [|reflexivity]. simpl.
  destruct (JSON_parse (JS.trim buffer)); reflexivity.
Qed.

Lemma process_line_well_formed (line : jsstring) (r : StreamResult Data)
    (w : World HookState) :
  well_formed line r -> process_line line w = append_record r w.
Proof.
  intros [Hne Hparse]. unfold process_line.
  apply JSFacts.truthy_true in Hne. now rewrite Hne, Hparse.
Qed.

Lemma process_line_malformed (line : jsstring) (w : World HookState) :
  malformed line -> state (exec (process_line line) w) = state w.
Proof.
  intros [Hblank|Hparse]; unfold process_line.
  - apply JSFacts.truthy_false in Hblank. now rewrite Hblank.
  - destruct (negb (JS.truthy (JS.trim line))); [reflexivity|].
    now rewrite Hparse.
Qed.

Lemma process_lines_app (xs ys : list jsstring) (w : World HookState) :
  exec (for_of (xs ++ ys) process_line) w
  = exec (for_of ys process_line) (exec (for_of xs process_line) w).
Proof. apply for_of_app, process_line_completion. Qed.

Lemma process_lines_cons (x : jsstring) (xs : list jsstring)
    (w : World HookState) :
  exec (for_of (x :: xs) process_line) w
  = exec (for_of xs process_line) (exec (process_line x) w).
Proof.
  unfold exec at 1. simpl.
  rewrite (bind_normal _ _ _ tt) by apply process_line_completion.
  reflexivity.
Qed.

(** The loop over the chunks: every segment of the decoded text but the
    last goes through the loop body, the last is left in the buffer. *)
Lemma read_loop_spec (pending : list TextDecoder.chunk)
    (ending : Completion unit) (decoder : TextDecoder.t)
    (buffer : jsstring) (w : World HookState) :
  ~ In JS.LF buffer ->
  read_loop pending ending decoder buffer w
  = let lines :=
      JS.split (buffer ++ snd (TextDecoder.decode_chunks decoder pending)) in
    let w' := exec (for_of (removelast lines) process_line) w in
    match ending with
    | Normal _ => (Normal (last lines []), w')
    | Throw e => (Throw e, w')
    | Pending => (Pending, w')
    end.
Proof.
  revert decoder buffer w.
  induction pending as [|value rest IH]; intros decoder buffer w Hbuf.
  - simpl. rewrite app_nil_r, (JSFacts.split_single buffer Hbuf). simpl.
    unfold bind, await, exec. simpl. now destruct ending.
  - simpl.
    destruct (TextDecoder.decode decoder value) as [decoder' decoded].
    unfold JS.pop.
    rewrite (bind_normal _ _ _ tt)
      by apply for_of_completion, process_line_completion.
    rewrite IH by apply JSFacts.split_last_single.
    destruct (TextDecoder.decode_chunks decoder' rest) as [d2 s2]. simpl.
    rewrite app_assoc, (JSFacts.split_app (buffer ++ decoded) s2).
    set (tail := JS.split (last (JS.split (buffer ++ decoded)) [] ++ s2)).
    assert (Htail : tail <> []) by apply JSFacts.split_not_nil.
    rewrite removelast_app, last_app_nonempty, process_lines_app
      by assumption.
    reflexivity.
Qed.

(** [processStream] on a readable body, in terms of the decoded text. *)
Lemma processStream_spec (response : Response) (reader : BodyStream)
    (w : World HookState) :
  body response = Some reader ->
  processStream response w
  = let lines := JS.split (TextDecoder.decode_text (chunks reader)) in
    let w' := exec (for_of (removelast lines) process_line) w in
    match ending reader with
    | Normal _ => flush (last lines []) w'
    | Throw e => (Throw e, w')
    | Pending => (Pending, w')
    end.
Proof.
  intros Hbody. unfold processStream. rewrite Hbody.
  unfold bind. rewrite read_loop_spec by (intros []).
  rewrite app_nil_l. unfold TextDecoder.decode_text.
  now destruct (ending reader).
Qed.

(** When the stream ends, every segment of the decoded text has updated
    the state as the loop body does. *)
Lemma processStream_state (response : Response)
    (received : list TextDecoder.chunk) (w : World HookState) :
  body response = Some {| chunks := received; ending := Normal tt |} ->
  completion (processStream response) w = Normal tt /\
  state (exec (processStream response) w)
  = state (exec (for_of (JS.split (TextDecoder.decode_text received))
                        process_line) w).
Proof.
  intros Hbody. unfold completion, exec at 1.
  rewrite (processStream_spec _ _ _ Hbody). simpl.
  set (lines := JS.split (TextDecoder.decode_text received)).
  assert (Hn : lines <> []) by apply JSFacts.split_not_nil.
  split; [apply flush_completion|].
  rewrite (app_removelast_last [] Hn) at 3.
  rewrite process_lines_app, process_lines_cons.
  apply flush_state.
Qed.

End Facts.
End ClaimProcessorFacts.

(* ================================================================= *)
(** ** The line-framed decoder and the aggregator *)

Section DecoderClaims.
Context {P : Platform}.
Import ClaimProcessor Spec ClaimProcessorFacts.

(** C1. Chunk-split invariance: a payload cut into pieces at any byte
    boundaries and read piece by piece leaves [processStream] with the same
    completion, the same records in the same order (and the same completed
    nodes and warnings) as the payload read as one chunk. *)
Theorem chunk_split_invariance (pieces : list TextDecoder.chunk)
    (finish : Completion unit) (ok_ : bool) (status_ : Z)
    (text_ : Completion jsstring) (w : World HookState) :
  processStream
    {| ok := ok_; status := status_; text := text_;
       body := Some {| chunks := pieces; ending := finish |} |} w
  = processStream
      {| ok := ok_; status := status_; text := text_;
         body := Some {| chunks := [List.concat pieces];
                         ending := finish |} |} w.
Proof.
  erewrite processStream_spec by reflexivity.
  symmetry. erewrite processStream_spec by reflexivity.
  cbn [chunks ending].
  now rewrite (TextDecoderFacts.decode_text_concat pieces).
Qed.

Lemma results_well_formed (lines : list jsstring)
    (records : list (StreamResult Data)) (w : World HookState) :
  Forall2 well_formed lines records ->
  results (state (exec (for_of lines process_line) w))
  = results (state w) ++ records.
Proof.
  intros H. revert w. induction H as [|l r ls rs Hl _ IH]; intros w.
  - simpl. now rewrite app_nil_r.
  - rewrite process_lines_cons, IH.
    unfold exec at 1. rewrite (process_line_well_formed l r w Hl).
    rewrite append_record_run. simpl. now rewrite <- app_assoc.
Qed.

(** C2. Malformed-line isolation: when the payload's text is N well-formed
    lines with one malformed line among them (with or without a final line
    feed), [processStream] completes normally and has appended exactly the
    N records of the well-formed lines, in their order. *)
Theorem malformed_line_isolation (response : Response)
    (received : list TextDecoder.chunk)
    (before after : list jsstring) (bad trailer : jsstring)
    (records_before records_after : list (StreamResult Data))
    (w : World HookState) :
  body response = Some {| chunks := received; ending := Normal tt |} ->
  TextDecoder.decode_text received
  = JS.join (before ++ bad :: after) ++ trailer ->
  trailer = [] \/ trailer = [JS.LF] ->
  Forall single_line (before ++ bad :: after) ->
  Forall2 well_formed before records_before ->
  Forall2 well_formed after records_after ->
  malformed bad ->
  completion (processStream response) w = Normal tt /\
  results (state (exec (processStream response) w))
  = results (state w) ++ records_before ++ records_after /\
  List.length (results (state (exec (processStream response) w)))
  = (List.length (results (state w))
     + (List.length before + List.length after))%nat.
Proof.
  intros Hbody Htext Htrailer Hsingle Hbefore Hafter Hbad.
  destruct (processStream_state response received w Hbody) as [Hc Hs].
  split; [exact Hc|].
  assert (Hres : results (state (exec (processStream response) w))
                 = results (state w) ++ records_before ++ records_after).
  { rewrite Hs, Htext.
    assert (Hne : before ++ bad :: after <> [])
      by (destruct before; discriminate).
    assert (Hlines : exists blank,
               JS.split (JS.join (before ++ bad :: after) ++ trailer)
               = (before ++ bad :: after) ++ blank
               /\ Forall malformed blank).
    { destruct Htrailer as [->| ->].
      - exists []. rewrite !app_nil_r. split; [|constructor].
        now apply JSFacts.split_join.
      - exists [[]]. split; [now apply JSFacts.split_join_LF|].
        constructor; [now left|constructor]. }
    destruct Hlines as [blank [-> Hblank]].
    rewrite <- app_assoc, <- app_comm_cons.
    rewrite process_lines_app, process_lines_cons, process_lines_app.
    set (w1 := exec (for_of before process_line) w).
    set (w2 := exec (process_line bad) w1).
    set (w3 := exec (for_of after process_line) w2).
    assert (Hblank' : state (exec (for_of blank process_line) w3) = state w3).
    { generalize w3. induction Hblank as [|l ls Hl _ IH]; intros w0;
        [reflexivity|].
      rewrite process_lines_cons, IH. now apply process_line_malformed. }
    rewrite Hblank'. unfold w3.
    rewrite (results_well_formed after records_after w2 Hafter).
    unfold w2. rewrite (process_line_malformed bad w1 Hbad).
    unfold w1. rewrite (results_well_formed before records_before w Hbefore).
    now rewrite app_assoc. }
  split; [exact Hres|].
  rewrite Hres, !length_app.
  rewrite <- (Forall2_length Hbefore), <- (Forall2_length Hafter).
  reflexivity.
Qed.

(** C3. Trailing-line flush: when the stream ends, the segment after the
    last line feed is flushed once, after the interior lines, with the
    state update of the loop body, so a well-formed final line without a
    line feed gives the last record; a stream without chunks changes
    nothing. *)
Theorem trailing_line_flush (response : Response)
    (received : list TextDecoder.chunk)
    (lines : list jsstring) (final : jsstring) (w : World HookState) :
  body response = Some {| chunks := received; ending := Normal tt |} ->
  JS.split (TextDecoder.decode_text received) = lines ++ [final] ->
  let w1 := exec (for_of lines process_line) w in
  processStream response w = (Normal tt, exec (flush final) w1)
  /\ state (exec (flush final) w1) = state (exec (process_line final) w1)
  /\ (forall r, well_formed final r ->
        results (state (exec (flush final) w1))
        = results (state w1) ++ [r])
  /\ (received = [] -> processStream response w = (Normal tt, w)).
Proof.
  intros Hbody Hsplit w1.
  rewrite (processStream_spec _ _ w Hbody). cbn [chunks ending].
  rewrite Hsplit, removelast_last, last_last.
  repeat split.
  - change (flush final w1 = (Normal tt, exec (flush final) w1)).
    rewrite (run_eq (flush final) w1) at 1.
    now rewrite flush_completion.
  - apply flush_state.
  - intros r Hr. rewrite flush_state. unfold exec at 1.
    rewrite (process_line_well_formed final r w1 Hr). reflexivity.
  - intros ->. unfold TextDecoder.decode_text in Hsplit. simpl in Hsplit.
    destruct lines as [|l [|l' ls]]; try discriminate.
    injection Hsplit as <-. reflexivity.
Qed.

Lemma occurrences_app (x : jsstring) (l1 l2 : list jsstring) :
  occurrences x (l1 ++ l2) = (occurrences x l1 + occurrences x l2)%nat.
Proof. unfold occurrences. now rewrite filter_app, length_app. Qed.

Lemma occurrences_not_In (x : jsstring) (l : list jsstring) :
  ~ In x l -> occurrences x l = 0%nat.
Proof.
  unfold occurrences. induction l as [|y l IH]; intros H; [reflexivity|].
  simpl. destruct (JS.eqb x y) eqn:E.
  - apply JSFacts.eqb_eq in E. subst. exfalso. apply H. now left.
  - apply IH. intros Hin. apply H. now right.
Qed.

Lemma occurrences_NoDup (x : jsstring) (l : list jsstring) :
  NoDup l -> In x l -> occurrences x l = 1%nat.
Proof.
  intros Hnd. induction Hnd as [|y l Hy Hnd IH]; intros Hin; [destruct Hin|].
  change (occurrences x (y :: l))
    with (occurrences x ([y] ++ l)).
  rewrite occurrences_app. unfold occurrences at 1. simpl.
  destruct Hin as [->|Hin].
  - rewrite JSFacts.eqb_refl, (occurrences_not_In x l Hy). reflexivity.
  - destruct (JS.eqb x y) eqn:E.
    + apply JSFacts.eqb_eq in E. subst. contradiction.
    + now rewrite IH.
Qed.

(** C4. Stage dedup with record retention: two records with the same node
    are both appended to [results], in order, while [completedNodes] (free
    of duplicates before) holds that node exactly once afterwards: it stays
    where it was, or is added at the end when it is new. *)
Theorem stage_dedup_record_retention (r1 r2 : StreamResult Data)
    (w : World HookState) :
  node r1 = node r2 ->
  NoDup (completedNodes (state w)) ->
  let w' := exec (append_record r1 ;; append_record r2) w in
  results (state w') = results (state w) ++ [r1; r2]
  /\ List.length (results (state w'))
     = (List.length (results (state w)) + 2)%nat
  /\ occurrences (node r1) (completedNodes (state w')) = 1%nat
  /\ completedNodes (state w')
     = if JS.includes (completedNodes (state w)) (node r1)
       then completedNodes (state w)
       else completedNodes (state w) ++ [node r1].
Proof.
  intros Hnode Hnd w'.
  assert (Hres : results (state w') = results (state w) ++ [r1; r2]).
  { unfold w', exec, bind. rewrite !append_record_run. simpl.
    now rewrite <- app_assoc. }
  assert (Hnodes : completedNodes (state w')
     = if JS.includes (completedNodes (state w)) (node r1)
       then completedNodes (state w)
       else completedNodes (state w) ++ [node r1]).
  { unfold w', exec, bind. rewrite !append_record_run. simpl.
    rewrite <- Hnode.
    destruct (JS.includes (completedNodes (state w)) (node r1)) eqn:E.
    - now rewrite E.
    - assert (E' : JS.includes (completedNodes (state w) ++ [node r1])
                     (node r1) = true).
      { apply JSFacts.includes_In, in_or_app. right. now left. }
      now rewrite E'. }
  repeat split; try assumption.
  - rewrite Hres, length_app. reflexivity.
  - rewrite Hnodes.
    destruct (JS.includes (completedNodes (state w)) (node r1)) eqn:E.
    + apply occurrences_NoDup; [assumption|].
      now apply JSFacts.includes_In.
    + apply JSFacts.includes_not_In in E.
      rewrite occurrences_app, (occurrences_not_In _ _ E).
      unfold occurrences. simpl. now rewrite JSFacts.eqb_refl.
Qed.

End DecoderClaims.

(* ================================================================= *)
(** ** Relations kept by every step of a computation *)

Section Respects.
Context {P : Platform} {S : Type}.
Variable R : World S -> World S -> Prop.
Hypothesis R_refl : forall w, R w w.
Hypothesis R_trans : forall w1 w2 w3, R w1 w2 -> R w2 w3 -> R w1 w3.

Lemma respects_ret {A} (a : A) : respects R (ret a).
Proof. intros w. apply R_refl. Qed.

Lemma respects_throw {A} (e : Thrown) : respects R (throw (A := A) e).
Proof. intros w. apply R_refl. Qed.

Lemma respects_await {A} (c : Completion A) : respects R (await c).
Proof. intros w. apply R_refl. Qed.

Lemma respects_bind {A B} (m : M S A) (k : A -> M S B) :
  respects R m -> (forall a, respects R (k a)) -> respects R (bind m k).
Proof.
  intros Hm Hk w. specialize (Hm w). unfold exec, bind in *.
  destruct (m w) as [[a|e|] w']; simpl in *; try assumption.
  apply (R_trans _ w'); [assumption|apply Hk].
Qed.

Lemma respects_try_catch {A} (m : M S A) (handler : Thrown -> M S A) :
  respects R m -> (forall e, respects R (handler e)) ->
  respects R (try_catch m handler).
Proof.
  intros Hm Hh w. specialize (Hm w). unfold exec, try_catch in *.
  destruct (m w) as [[a|e|] w']; simpl in *; try assumption.
  apply (R_trans _ w'); [assumption|apply Hh].
Qed.

Lemma respects_try_finally {A} (m : M S A) (cleanup : M S unit) :
  respects R m -> respects R cleanup -> respects R (try_finally m cleanup).
Proof.
  intros Hm Hc w. specialize (Hm w). unfold respects in Hc.
  unfold exec, try_finally in *.
  destruct (m w) as [[a|e|] w']; simpl in *; try assumption;
    specialize (Hc w'); destruct (cleanup w') as [[[]|e'|] w'']; simpl in *;
    apply (R_trans _ w'); assumption.
Qed.

Lemma respects_for_of {A} (xs : list A) (body : A -> M S unit) :
  (forall x, respects R (body x)) -> respects R (for_of xs body).
Proof.
  intros Hbody. induction xs as [|x xs IH]; simpl.
  - apply respects_ret.
  - apply respects_bind; [apply Hbody|intros _; apply IH].
Qed.

Lemma respects_if {A} (c : bool) (m1 m2 : M S A) :
  respects R m1 -> respects R m2 -> respects R (if c then m1 else m2).
Proof. now destruct c. Qed.

End Respects.

Module ClaimProcessorSteps.
Import ClaimProcessor Spec.
Section Steps.
Context {P : Platform}.
Variable R : World HookState -> World HookState -> Prop.
Hypothesis R_refl : forall w, R w w.
Hypothesis R_trans : forall w1 w2 w3, R w1 w2 -> R w2 w3 -> R w1 w3.
Hypothesis R_perform :
  forall e, isProcessing_writes [e] = [] -> respects R (perform e).
Hypothesis R_append_record : forall r, respects R (append_record r).

Lemma process_line_respects (line : jsstring) :
  respects R (process_line line).
Proof.
  unfold process_line.
  apply respects_if; [now apply respects_ret|].
  destruct (JSON_parse (JS.trim line));
    [apply R_append_record|now apply R_perform].
Qed.

Lemma flush_respects (buffer : jsstring) : respects R (flush buffer).
Proof.
  unfold flush.
  apply respects_if; [|now apply respects_ret].
  destruct (JSON_parse (JS.trim buffer));
    [apply R_append_record|now apply R_perform].
Qed.

Lemma read_loop_respects (pending : list TextDecoder.chunk)
    (finish : Completion unit) (decoder : TextDecoder.t)
    (buffer : jsstring) :
  respects R (read_loop pending finish decoder buffer).
Proof.
  revert decoder buffer.
  induction pending as [|value rest IH]; intros decoder buffer; simpl.
  - apply respects_bind; [assumption|now apply respects_await|].
    intros _. now apply respects_ret.
  - destruct (TextDecoder.decode decoder value) as [decoder' decoded].
    unfold JS.pop.
    apply respects_bind; [assumption| |intros _; apply IH].
    apply respects_for_of; [assumption..|].
    apply process_line_respects.
Qed.

Lemma processStream_respects (response : Response) :
  respects R (processStream response).
Proof.
  unfold processStream. destruct (body response) as [reader|].
  - apply respects_bind; [assumption|apply read_loop_respects|].
    apply flush_respects.
  - now apply respects_throw.
Qed.

Lemma check_ok_respects (response : Response) :
  respects R (check_ok response).
Proof.
  unfold check_ok.
  apply respects_if; [|now apply respects_ret].
  apply respects_bind; [assumption|now apply respects_await|intros errorText].
  apply respects_bind; [assumption|now apply R_perform|intros _].
  now apply respects_throw.
Qed.

Lemma fetch_respects (endpoint : Endpoint) (request : RequestBody)
    (net : Completion Response) :
  respects R (fetch endpoint request net).
Proof.
  unfold fetch.
  apply respects_bind; [assumption|now apply R_perform|intros _].
  now apply respects_await.
Qed.

(** The [try]/[catch] part of a submission, with its request, its toast
    and its labels. *)
Lemma attempt_respects (endpoint : Endpoint) (request : RequestBody)
    (net : Completion Response) (done : jsstring) (label fallback : string) :
  respects R
    (try_catch
       (response <- fetch endpoint request net ;;
        check_ok response ;;
        processStream response ;;
        perform (ToastSuccess done))
       (fun error =>
          perform (ConsoleErrorThrown label error) ;;
          perform (ToastError (error_toast fallback error)))).
Proof.
  apply respects_try_catch; [assumption| |intros error].
  - apply respects_bind; [assumption|apply fetch_respects|intros response].
    apply respects_bind; [assumption|apply check_ok_respects|intros _].
    apply respects_bind; [assumption|apply processStream_respects|intros _].
    now apply R_perform.
  - apply respects_bind; [assumption|now apply R_perform|intros _].
    now apply R_perform.
Qed.

End Steps.
End ClaimProcessorSteps.

(* ================================================================= *)
(** ** The request orchestrator of the hook *)

Section FirstOccurrences.
Import Spec.

Lemma first_occurrences_In (x : jsstring) (l : list jsstring) :
  In x (first_occurrences l) <-> In x l.
Proof.
  induction l as [|y l IH]; simpl; [reflexivity|].
  rewrite filter_In, IH. split.
  - intros [->|[Hin _]]; [now left|now right].
  - intros [->|Hin]; [now left|].
    destruct (JS.eqb y x) eqn:E.
    + apply JSFacts.eqb_eq in E. now left.
    + right. now split.
Qed.

Lemma first_occurrences_NoDup (l : list jsstring) :
  NoDup (first_occurrences l).
Proof.
  induction l as [|y l IH]; simpl; constructor.
  - rewrite filter_In. intros [_ H]. now rewrite JSFacts.eqb_refl in H.
  - now apply NoDup_filter.
Qed.

Lemma first_occurrences_snoc (l : list jsstring) (x : jsstring) :
  first_occurrences (l ++ [x])
  = if JS.includes l x then first_occurrences l
    else first_occurrences l ++ [x].
Proof.
  induction l as [|y l IH]; [reflexivity|].
  simpl app. simpl first_occurrences. rewrite IH.
  unfold JS.includes. simpl existsb. fold (JS.includes l x).
  destruct (JS.eqb x y) eqn:E.
  - apply JSFacts.eqb_eq in E. subst y. simpl.
    destruct (JS.includes l x); [reflexivity|].
    rewrite filter_app. simpl. rewrite JSFacts.eqb_refl. simpl.
    now rewrite app_nil_r.
  - simpl. destruct (JS.includes l x); [reflexivity|].
    rewrite filter_app. simpl.
    assert (E' : JS.eqb y x = false).
    { apply JSFacts.eqb_neq. apply JSFacts.eqb_neq in E. congruence. }
    now rewrite E'.
Qed.

Lemma includes_first_occurrences (l : list jsstring) (x : jsstring) :
  JS.includes (first_occurrences l) x = JS.includes l x.
Proof.
  destruct (JS.includes l x) eqn:E.
  - apply JSFacts.includes_In, first_occurrences_In.
    now apply JSFacts.includes_In.
  - apply JSFacts.includes_not_In. rewrite first_occurrences_In.
    now apply JSFacts.includes_not_In.
Qed.

End FirstOccurrences.

Section OrchestratorClaims.
Context {P : Platform}.
Import ClaimProcessor Spec ClaimProcessorFacts ClaimProcessorSteps.

(** *** Consistency of [completedNodes] with [results] *)

Lemma keeps_consistent_refl (w : World HookState) : keeps_consistent w w.
Proof. now intros H. Qed.

Lemma keeps_consistent_trans (w1 w2 w3 : World HookState) :
  keeps_consistent w1 w2 -> keeps_consistent w2 w3 -> keeps_consistent w1 w3.
Proof. unfold keeps_consistent. auto. Qed.

Lemma keeps_consistent_perform (e : Effect) :
  respects keeps_consistent (perform e).
Proof. now intros w H. Qed.

Lemma keeps_consistent_append_record (r : StreamResult Data) :
  respects keeps_consistent (append_record r).
Proof.
  intros w [_ Heq]. unfold exec. rewrite append_record_run. simpl.
  assert (Heq' :
    (if JS.includes (completedNodes (state w)) (node r)
     then completedNodes (state w)
     else completedNodes (state w) ++ [node r])
    = first_occurrences (map node (results (state w) ++ [r]))).
  { rewrite map_app. simpl map. rewrite first_occurrences_snoc.
    rewrite Heq at 1. rewrite includes_first_occurrences.
    now rewrite <- Heq. }
  split; simpl; [|exact Heq'].
  rewrite Heq'. apply first_occurrences_NoDup.
Qed.

Lemma keeps_consistent_setIsProcessing (value : bool) :
  respects keeps_consistent (setIsProcessing value).
Proof. now intros w H. Qed.

Lemma consistent_reset (w : World HookState) :
  consistent (state (exec reset w)).
Proof. split; simpl; [constructor|reflexivity]. Qed.

Lemma keeps_consistent_submission (endpoint : Endpoint)
    (request : RequestBody) (net : Completion Response) (done : jsstring)
    (label fallback : string) (w : World HookState) :
  consistent (state (exec
    (reset ;;
     setIsProcessing true ;;
     try_finally
       (try_catch
          (response <- fetch endpoint request net ;;
           check_ok response ;;
           processStream response ;;
           perform (ToastSuccess done))
          (fun error =>
             perform (ConsoleErrorThrown label error) ;;
             perform (ToastError (error_toast fallback error))))
       (setIsProcessing false)) w)).
Proof.
  set (rest := setIsProcessing true ;; _).
  assert (Hrest : respects keeps_consistent rest).
  { apply respects_bind;
      [exact keeps_consistent_trans|apply keeps_consistent_setIsProcessing|].
    intros _. apply respects_try_finally;
      [exact keeps_consistent_trans| |apply keeps_consistent_setIsProcessing].
    apply attempt_respects.
    - exact keeps_consistent_refl.
    - exact keeps_consistent_trans.
    - intros e _. apply keeps_consistent_perform.
    - exact keeps_consistent_append_record. }
  unfold exec. rewrite (bind_normal _ _ _ tt) by reflexivity.
  apply Hrest, consistent_reset.
Qed.

(** C9. [completedNodes] has no duplicates and is the sequence of first
    occurrences of [node] over [results]: this holds when the hook is
    mounted and after [reset], and every step from a state where it holds
    (a parsed record, a line, the flush, a whole [processStream] however
    the stream ends, a whole submission) leaves a state where it holds. *)
Theorem completedNodes_consistent (w : World HookState) :
  consistent (state w) ->
  consistent initial
  /\ (forall w0, consistent (state (exec reset w0)))
  /\ (forall r, consistent (state (exec (append_record r) w)))
  /\ (forall line, consistent (state (exec (process_line line) w)))
  /\ (forall buffer, consistent (state (exec (flush buffer) w)))
  /\ (forall response, consistent (state (exec (processStream response) w)))
  /\ (forall claimText net,
        consistent (state (exec (processClaim claimText net) w)))
  /\ (forall file net,
        consistent (state (exec (processFile file net) w))).
Proof.
  intros Hw.
  pose proof keeps_consistent_refl as Hrefl.
  pose proof keeps_consistent_trans as Htrans.
  assert (Hperform : forall e : Effect,
             isProcessing_writes [e] = [] ->
             respects keeps_consistent (perform e))
    by (intros e _; apply keeps_consistent_perform).
  pose proof keeps_consistent_append_record as Happend.
  repeat split.
  - constructor.
  - simpl. constructor.
  - now apply keeps_consistent_append_record.
  - now apply keeps_consistent_append_record.
  - now apply (process_line_respects keeps_consistent).
  - now apply (process_line_respects keeps_consistent).
  - now apply (flush_respects keeps_consistent).
  - now apply (flush_respects keeps_consistent).
  - now apply (processStream_respects keeps_consistent).
  - now apply (processStream_respects keeps_consistent).
  - apply keeps_consistent_submission.
  - apply keeps_consistent_submission.
  - apply keeps_consistent_submission.
  - apply keeps_consistent_submission.
Qed.

End OrchestratorClaims.

Section TerminalState.
Context {P : Platform}.
Import ClaimProcessor Spec ClaimProcessorFacts ClaimProcessorSteps.

Lemma isProcessing_writes_app (es1 es2 : list Effect) :
  isProcessing_writes (es1 ++ es2)
  = isProcessing_writes es1 ++ isProcessing_writes es2.
Proof.
  induction es1 as [|e es1 IH]; [reflexivity|].
  destruct e; simpl; now rewrite IH.
Qed.

Lemma leaves_isProcessing_refl (w : World HookState) :
  leaves_isProcessing w w.
Proof. split; [reflexivity|]. exists []. now rewrite app_nil_r. Qed.

Lemma leaves_isProcessing_trans (w1 w2 w3 : World HookState) :
  leaves_isProcessing w1 w2 -> leaves_isProcessing w2 w3 ->
  leaves_isProcessing w1 w3.
Proof.
  intros [H12 [n12 [E12 W12]]] [H23 [n23 [E23 W23]]]. split.
  - now rewrite H23.
  - exists (n12 ++ n23). split.
    + now rewrite E23, E12, app_assoc.
    + now rewrite isProcessing_writes_app, W12, W23.
Qed.

Lemma leaves_isProcessing_perform (e : Effect) :
  isProcessing_writes [e] = [] -> respects leaves_isProcessing (perform e).
Proof. intros He w. split; [reflexivity|]. now exists [e]. Qed.

Lemma leaves_isProcessing_append_record (r : StreamResult Data) :
  respects leaves_isProcessing (append_record r).
Proof.
  intros w. unfold exec. rewrite append_record_run. simpl.
  split; [reflexivity|]. exists []. now rewrite app_nil_r.
Qed.

(** How [processStream] completes. *)
Lemma processStream_completion (response : Response) (w : World HookState) :
  completion (processStream response) w
  = match body response with
    | None => Throw (JsError (JS.lit "No response body reader available"))
    | Some reader =>
        match ending reader with
        | Normal _ => Normal tt
        | Throw e => Throw e
        | Pending => Pending
        end
    end.
Proof.
  destruct (body response) as [reader|] eqn:Hbody.
  - unfold completion. rewrite (processStream_spec _ _ w Hbody). simpl.
    destruct (ending reader); try reflexivity.
    apply flush_completion.
  - unfold completion, processStream. now rewrite Hbody.
Qed.

(** Once the response has settled, the [try]/[catch] part of a submission
    completes normally: every throw is caught. *)
Lemma attempt_completion (endpoint : Endpoint) (request : RequestBody)
    (net : Completion Response) (done : jsstring) (label fallback : string)
    (w : World HookState) :
  settled net ->
  completion
    (try_catch
       (response <- fetch endpoint request net ;;
        check_ok response ;;
        processStream response ;;
        perform (ToastSuccess done))
       (fun error =>
          perform (ConsoleErrorThrown label error) ;;
          perform (ToastError (error_toast fallback error)))) w
  = Normal tt.
Proof.
  intros Hsettled. unfold completion, try_catch.
  destruct net as [response|e|]; [|reflexivity|destruct Hsettled].
  unfold fetch at 1, bind at 1. simpl. unfold bind at 1. simpl.
  unfold settled in Hsettled. unfold check_ok.
  destruct (ok response); simpl.
  - unfold bind at 1. simpl.
    set (w0 := {| state := state w; effects := _ |}).
    rewrite (run_eq (processStream response) w0).
    rewrite processStream_completion.
    destruct (body response) as [reader|]; [|reflexivity].
    destruct (ending reader) as [[]|e|]; try reflexivity.
    now contradiction Hsettled.
  - unfold bind, await. simpl.
    destruct (text response) as [errorText|e|]; try reflexivity.
    now contradiction Hsettled.
Qed.

Lemma submission_terminal (endpoint : Endpoint) (request : RequestBody)
    (net : Completion Response) (done : jsstring) (label fallback : string)
    (w : World HookState) :
  settled net ->
  let run :=
    (reset ;;
     setIsProcessing true ;;
     try_finally
       (try_catch
          (response <- fetch endpoint request net ;;
           check_ok response ;;
           processStream response ;;
           perform (ToastSuccess done))
          (fun error =>
             perform (ConsoleErrorThrown label error) ;;
             perform (ToastError (error_toast fallback error))))
       (setIsProcessing false)) in
  completion run w = Normal tt
  /\ isProcessing (state (exec run w)) = false
  /\ exists new,
       effects (exec run w) = effects w ++ new
       /\ isProcessing_writes new = [false; true; false].
Proof.
  intros Hsettled run. unfold run, completion, exec.
  set (attempt := try_catch _ _).
  rewrite (bind_normal _ _ _ tt) by reflexivity.
  rewrite (bind_normal _ _ _ tt) by reflexivity.
  set (w0 := exec (setIsProcessing true) (exec reset w)).
  pose proof (attempt_completion endpoint request net done label fallback
                w0 Hsettled) as Hc.
  fold attempt in Hc.
  assert (Hq : leaves_isProcessing w0 (exec attempt w0)).
  { apply attempt_respects.
    - exact leaves_isProcessing_refl.
    - exact leaves_isProcessing_trans.
    - exact leaves_isProcessing_perform.
    - exact leaves_isProcessing_append_record. }
  destruct Hq as [_ [new [Hnew Hwrites]]].
  unfold try_finally. rewrite (run_eq attempt w0), Hc. simpl.
  repeat split.
  exists ([SetIsProcessing false; SetIsProcessing true] ++ new
          ++ [SetIsProcessing false]).
  split.
  - rewrite Hnew. unfold w0. simpl. now rewrite <- !app_assoc.
  - rewrite !isProcessing_writes_app, Hwrites. reflexivity.
Qed.

(** C5. Terminal state: once the response has settled, whichever way
    (rejected request, failure status, missing body, drained or failing
    body), [processClaim] and [processFile] complete normally with
    [isProcessing] false, and the writes of [isProcessing] are those of the
    reset and of the activation followed by exactly one write of false, the
    one of the [finally] block. *)
Theorem terminal_state_guarantee (claimText : jsstring) (file : File)
    (net : Completion Response) (w : World HookState) :
  settled net ->
  (completion (processClaim claimText net) w = Normal tt
   /\ isProcessing (state (exec (processClaim claimText net) w)) = false
   /\ exists new,
        effects (exec (processClaim claimText net) w) = effects w ++ new
        /\ isProcessing_writes new = [false; true; false])
  /\ (completion (processFile file net) w = Normal tt
      /\ isProcessing (state (exec (processFile file net) w)) = false
      /\ exists new,
           effects (exec (processFile file net) w) = effects w ++ new
           /\ isProcessing_writes new = [false; true; false]).
Proof.
  intros Hsettled. split.
  - exact (submission_terminal API_ENDPOINT (ClaimBody claimText) net _ _ _
             w Hsettled).
  - exact (submission_terminal API_FILE_ENDPOINT (FileBody file) net _ _ _
             w Hsettled).
Qed.

End TerminalState.

(* ================================================================= *)
(** ** The chat box *)

Module ClaimChatBoxFacts.
Import ClaimChatBox Spec.
Section Facts.
Context {P : Platform}.

(** A later content of the open turn replaces an earlier one. *)
Lemma set_content_twice (mid v1 v2 : jsstring) (prev : list Message) :
  set_content mid v2 (set_content mid v1 prev) = set_content mid v2 prev.
Proof.
  unfold set_content. rewrite map_map. apply map_ext. intros msg.
  destruct (JS.eqb (id msg) mid) eqn:E; simpl; now rewrite E.
Qed.

Lemma set_content_app (mid v : jsstring) (l1 l2 : list Message) :
  set_content mid v (l1 ++ l2) = set_content mid v l1 ++ set_content mid v l2.
Proof. apply map_app. Qed.

Lemma set_content_length (mid v : jsstring) (prev : list Message) :
  List.length (set_content mid v prev) = List.length prev.
Proof. apply length_map. Qed.

(** The open turn is the last message and takes the content. *)
Lemma set_content_open_turn (clock : Clock) (v0 v : jsstring)
    (prior : list Message) :
  set_content (assistantMessageId clock) v (prior ++ [assistant_turn clock v0])
  = set_content (assistantMessageId clock) v prior ++ [assistant_turn clock v].
Proof.
  rewrite set_content_app. unfold set_content at 2. simpl.
  now rewrite JSFacts.eqb_refl.
Qed.

(** The loop over the answer: it completes as the last read does, and
    once a chunk has been read the matching messages hold the text decoded
    so far. *)
Lemma read_loop_run (mid : jsstring) (pending : list TextDecoder.chunk)
    (finish : Completion unit) (decoder : TextDecoder.t) (acc : jsstring)
    (w : World ChatState) :
  read_loop mid pending finish decoder acc w
  = (finish,
     {| state :=
          {| messages :=
               match pending with
               | [] => messages (state w)
               | _ :: _ =>
                   set_content mid
                     (acc ++ snd (TextDecoder.decode_chunks decoder pending))
                     (messages (state w))
               end;
             input := input (state w);
             isLoading := isLoading (state w) |};
        effects := effects w |}).
Proof.
  revert decoder acc w.
  induction pending as [|value rest IH]; intros decoder acc w.
  - simpl. unfold await. now destruct w as [[ms inp ld] es].
  - simpl.
    destruct (TextDecoder.decode decoder value) as [decoder' chunk].
    unfold bind, setMessages, modify. rewrite IH. simpl.
    destruct (TextDecoder.decode_chunks decoder' rest) as [d2 s2] eqn:E.
    simpl. destruct rest as [|value' rest'].
    + simpl in E. injection E as _ <-. now rewrite app_nil_r.
    + now rewrite set_content_twice, app_assoc.
Qed.

(** The world once [handleSend] has appended both messages, taken the
    input and issued the request. *)
Lemma handleSend_dispatch (claimData : option (list (StreamResult Data)))
    (clock : Clock) (net : Completion Response) (w : World ChatState) :
  sendable w ->
  handleSend claimData clock net w
  = try_finally
      (try_catch
         (response <- await net ;;
          (if negb (ok response) then
             throw (JsError (JS.lit "Failed to get response from chat API"))
           else ret tt) ;;
          match body response with
          | Some reader =>
              read_loop (assistantMessageId clock) (chunks reader)
                        (ending reader) TextDecoder.new []
          | None => ret tt
          end)
         (fun error =>
            perform (ConsoleErrorThrown "Chat error:" error) ;;
            setMessages (set_content (assistantMessageId clock) apology)))
      (setIsLoading false)
      {| state :=
           {| messages :=
                messages (state w)
                ++ [user_turn clock (input (state w));
                    assistant_turn clock []];
              input := [];
              isLoading := true |};
         effects :=
           effects w
           ++ [Fetch CHAT_ENDPOINT
                 (ChatBody (claim_text claimData) (input (state w)))] |}.
Proof.
  intros [Hinput Hloading]. unfold handleSend.
  unfold bind at 1, get at 1. rewrite Hinput, Hloading. simpl.
  unfold bind at 1. simpl. unfold bind at 1. simpl.
  unfold bind at 1. simpl. unfold bind at 1. simpl.
  unfold try_finally, try_catch, fetch.
  unfold bind at 2. simpl. rewrite <- app_assoc. reflexivity.
Qed.

End Facts.
End ClaimChatBoxFacts.

Section ChatClaims.
Context {P : Platform}.
Import ClaimChatBox Spec ClaimChatBoxFacts.

(** C7. Progressive accumulation: while the answer streams (the next read
    has not settled) and when the stream has ended, the placeholder opened
    by the send is the last message and its content is the text decoded
    from the chunks received so far, which is the text of their
    concatenation; the send is suspended with [isLoading] true in the first
    case and has completed with [isLoading] false in the second. *)
Theorem chat_progressive_accumulation
    (claimData : option (list (StreamResult Data))) (clock : Clock)
    (response : Response) (received : list TextDecoder.chunk)
    (finish : Completion unit) (w : World ChatState) :
  sendable w ->
  ok response = true ->
  body response = Some {| chunks := received; ending := finish |} ->
  finish = Pending \/ finish = Normal tt ->
  let w' := exec (handleSend claimData clock (Normal response)) w in
  (exists prior,
     messages (state w')
     = prior ++ [assistant_turn clock (TextDecoder.decode_text received)]
     /\ List.length prior = Datatypes.S (List.length (messages (state w))))
  /\ TextDecoder.decode_text received
     = TextDecoder.decode_text [List.concat received]
  /\ completion (handleSend claimData clock (Normal response)) w = finish
  /\ isLoading (state w')
     = match finish with Pending => true | _ => false end.
Proof.
  intros Hsend Hok Hbody Hfinish w'.
  assert (Hrun : handleSend claimData clock (Normal response) w
    = (finish,
       {| state :=
            {| messages :=
                 match received with
                 | [] => messages (state w)
                         ++ [user_turn clock (input (state w));
                             assistant_turn clock []]
                 | _ :: _ =>
                     set_content (assistantMessageId clock)
                       (TextDecoder.decode_text received)
                       (messages (state w)
                        ++ [user_turn clock (input (state w));
                            assistant_turn clock []])
                 end;
               input := [];
               isLoading := match finish with Pending => true | _ => false end
            |};
          effects :=
            effects w
            ++ [Fetch CHAT_ENDPOINT
                  (ChatBody (claim_text claimData) (input (state w)))] |})).
  { rewrite (handleSend_dispatch claimData clock _ w Hsend).
    unfold try_finally, try_catch, bind at 1, await at 1.
    unfold bind at 1. rewrite Hok. simpl. rewrite Hbody. simpl.
    rewrite read_loop_run. simpl.
    destruct Hfinish as [-> | ->]; reflexivity. }
  unfold w', exec, completion. rewrite Hrun. simpl.
  repeat split.
  - destruct received as [|value rest].
    + exists (messages (state w) ++ [user_turn clock (input (state w))]).
      split; [now rewrite <- app_assoc|].
      rewrite length_app. simpl. lia.
    + exists (set_content (assistantMessageId clock)
                (TextDecoder.decode_text (value :: rest))
                (messages (state w) ++ [user_turn clock (input (state w))])).
      split.
      * rewrite <- set_content_open_turn with (v0 := []).
        now rewrite <- app_assoc.
      * rewrite set_content_length, length_app. simpl. lia.
  - apply TextDecoderFacts.decode_text_concat.
Qed.

(** C8. Failure recovery: when a send fails after dispatch (rejected
    request, failure status, or a rejected read after any number of
    chunks), [handleSend] completes normally; the turn it opened is still
    the last message and its content is the fixed apology, whatever had
    accumulated; the input is empty and [isLoading] false, so that a next
    question is dispatched. *)
Theorem chat_failure_recovery
    (claimData : option (list (StreamResult Data))) (clock : Clock)
    (net : Completion Response) (w : World ChatState) :
  sendable w ->
  chat_fails net ->
  let w' := exec (handleSend claimData clock net) w in
  completion (handleSend claimData clock net) w = Normal tt
  /\ messages (state w')
     = set_content (assistantMessageId clock) apology
         (messages (state w)
          ++ [user_turn clock (input (state w)); assistant_turn clock []])
  /\ (exists prior,
        messages (state w') = prior ++ [assistant_turn clock apology]
        /\ List.length prior = Datatypes.S (List.length (messages (state w))))
  /\ input (state w') = []
  /\ isLoading (state w') = false
  /\ (forall question clock',
        JS.truthy (JS.trim question) = true ->
        handleSend claimData clock' Pending (exec (setInput question) w')
        = (Pending,
           {| state :=
                {| messages :=
                     messages (state w')
                     ++ [user_turn clock' question; assistant_turn clock' []];
                   input := [];
                   isLoading := true |};
              effects :=
                effects w'
                ++ [Fetch CHAT_ENDPOINT
                      (ChatBody (claim_text claimData) question)] |})).
Proof.
  intros Hsend Hfails w'.
  assert (Hrun : exists error, handleSend claimData clock net w
    = (Normal tt,
       {| state :=
            {| messages :=
                 set_content (assistantMessageId clock) apology
                   (messages (state w)
                    ++ [user_turn clock (input (state w));
                        assistant_turn clock []]);
               input := [];
               isLoading := false |};
          effects :=
            effects w
            ++ [Fetch CHAT_ENDPOINT
                  (ChatBody (claim_text claimData) (input (state w)));
                ConsoleErrorThrown "Chat error:" error] |})).
  { rewrite (handleSend_dispatch claimData clock _ w Hsend).
    unfold try_finally, try_catch, bind at 1, await at 1.
    destruct Hfails as [e|response Hok|response received e Hok Hbody].
    - exists e. simpl. now rewrite <- app_assoc.
    - eexists. unfold bind at 1. rewrite Hok. simpl.
      now rewrite <- app_assoc.
    - exists e. unfold bind at 1. rewrite Hok. simpl. rewrite Hbody. simpl.
      rewrite read_loop_run. simpl. rewrite <- app_assoc.
      destruct received; simpl; [reflexivity|].
      now rewrite set_content_twice. }
  destruct Hrun as [error Hrun].
  pose proof (f_equal snd Hrun) as Hw'. simpl in Hw'.
  change (snd (handleSend claimData clock net w)) with w' in Hw'.
  clearbody w'. subst w'.
  unfold completion. rewrite Hrun. simpl.
  repeat split.
  - exists (set_content (assistantMessageId clock) apology
              (messages (state w) ++ [user_turn clock (input (state w))])).
    split.
    + rewrite <- set_content_open_turn with (v0 := []).
      now rewrite <- app_assoc.
    + rewrite set_content_length, length_app. simpl. lia.
  - intros question clock' Hq.
    now rewrite handleSend_dispatch.
Qed.

(** C10. A send with an empty or blank input, or while a request is in
    flight, does nothing: it returns at once and the messages, the input,
    the loading flag and the effects (no request among them) are as
    before. *)
Theorem blank_or_busy_send_is_noop
    (claimData : option (list (StreamResult Data))) (clock : Clock)
    (net : Completion Response) (w : World ChatState) :
  JS.truthy (JS.trim (input (state w))) = false \/ isLoading (state w) = true ->
  handleSend claimData clock net w = (Normal tt, w).
Proof.
  intros H. unfold handleSend, bind, get.
  destruct H as [H|H]; rewrite H; [reflexivity|].
  now rewrite orb_true_r.
Qed.

End ChatClaims.

(* ================================================================= *)
(** ** Failure statuses *)

Section FailureStatus.
Context {P : Platform}.
Import Spec.

Lemma starts_with_app (needle rest : jsstring) :
  JS.starts_with needle (needle ++ rest) = true.
Proof.
  induction needle as [|x needle IH]; [reflexivity|].
  simpl. now rewrite Z.eqb_refl, IH.
Qed.

Lemma contains_infix (before needle rest : jsstring) :
  JS.contains (before ++ needle ++ rest) needle = true.
Proof.
  induction before as [|x before IH].
  - simpl app. destruct (needle ++ rest) eqn:E; simpl;
      rewrite <- E, starts_with_app; reflexivity.
  - simpl. rewrite IH. apply orb_true_r.
Qed.

(** The message of the error thrown on a failure status. *)
Lemma http_error_captures (status_ : Z) (errorText : jsstring) :
  captures
    [JS.lit "Connection Error: "
     ++ JS.lit "HTTP error! status: " ++ JS.number_toString status_
     ++ JS.lit " - " ++ errorText]
    status_ errorText = true.
Proof.
  unfold captures. cbn [existsb]. rewrite orb_false_r.
  apply andb_true_iff. split.
  - rewrite (app_assoc (JS.lit "Connection Error: ")).
    apply contains_infix.
  - rewrite <- (app_nil_r errorText) at 1.
    rewrite !app_assoc, <- app_assoc. apply contains_infix.
Qed.

(** A submission answered with a failure status, by what the read of the
    response text does. *)
Lemma submission_failure (endpoint : Endpoint) (request : RequestBody)
    (response : Response) (done : jsstring)
    (label fallback : string) (w : World ClaimProcessor.HookState) :
  ok response = false ->
  (ClaimProcessor.reset ;;
   ClaimProcessor.setIsProcessing true ;;
   try_finally
     (try_catch
        (response <- fetch endpoint request (Normal response) ;;
         ClaimProcessor.check_ok response ;;
         ClaimProcessor.processStream response ;;
         perform (ToastSuccess done))
        (fun error =>
           perform (ConsoleErrorThrown label error) ;;
           perform (ToastError (ClaimProcessor.error_toast fallback error))))
     (ClaimProcessor.setIsProcessing false)) w
  = match text response with
    | Normal errorText =>
        let message :=
          JS.lit "HTTP error! status: "
          ++ JS.number_toString (status response)
          ++ JS.lit " - " ++ errorText in
        (Normal tt,
         {| state :=
              {| ClaimProcessor.isProcessing := false;
                 ClaimProcessor.results := [];
                 ClaimProcessor.completedNodes := [] |};
            effects :=
              effects w
              ++ [SetIsProcessing false; SetIsProcessing true;
                  Fetch endpoint request;
                  ConsoleErrorText "Backend error response:" errorText;
                  ConsoleErrorThrown label (JsError message);
                  ToastError (JS.lit "Connection Error: " ++ message);
                  SetIsProcessing false] |})
    | Throw e =>
        (Normal tt,
         {| state :=
              {| ClaimProcessor.isProcessing := false;
                 ClaimProcessor.results := [];
                 ClaimProcessor.completedNodes := [] |};
            effects :=
              effects w
              ++ [SetIsProcessing false; SetIsProcessing true;
                  Fetch endpoint request;
                  ConsoleErrorThrown label e;
                  ToastError (ClaimProcessor.error_toast fallback e);
                  SetIsProcessing false] |})
    | Pending =>
        (Pending,
         {| state :=
              {| ClaimProcessor.isProcessing := true;
                 ClaimProcessor.results := [];
                 ClaimProcessor.completedNodes := [] |};
            effects :=
              effects w
              ++ [SetIsProcessing false; SetIsProcessing true;
                  Fetch endpoint request] |})
    end.
Proof.
  intros Hok.
  unfold try_finally, try_catch, fetch, ClaimProcessor.check_ok.
  unfold bind, await. simpl. rewrite Hok.
  destruct (text response) as [errorText|e|]; simpl;
    repeat rewrite <- app_assoc; reflexivity.
Qed.

(** A chat send answered with a failure status. *)
Lemma chat_failure (claimData : option (list (StreamResult Data)))
    (clock : ClaimChatBox.Clock) (response : Response)
    (cw : World ClaimChatBox.ChatState) :
  ok response = false ->
  sendable cw ->
  ClaimChatBox.handleSend claimData clock (Normal response) cw
  = (Normal tt,
     {| state :=
          {| ClaimChatBox.messages :=
               ClaimChatBox.set_content (assistantMessageId clock)
                 ClaimChatBox.apology
                 (ClaimChatBox.messages (state cw)
                  ++ [user_turn clock (ClaimChatBox.input (state cw));
                      assistant_turn clock []]);
             ClaimChatBox.input := [];
             ClaimChatBox.isLoading := false |};
        effects :=
          effects cw
          ++ [Fetch CHAT_ENDPOINT
                (ChatBody (ClaimChatBox.claim_text claimData)
                          (ClaimChatBox.input (state cw)));
              ConsoleErrorThrown "Chat error:"
                (JsError
                   (JS.lit "Failed to get response from chat API"))] |}).
Proof.
  intros Hok Hsend.
  rewrite (ClaimChatBoxFacts.handleSend_dispatch claimData clock _ cw Hsend).
  unfold try_finally, try_catch, bind at 1, await at 1.
  unfold bind at 1. rewrite Hok. simpl.
  now rewrite <- app_assoc.
Qed.

(** C6, as the code has it.  A response with a failure status fails the
    request without its body being read as a stream: the run is the same
    whatever the body is.  A claim or file submission reads the response
    text first.  When the text can be read, the error toast carries the
    status and that text; when reading it is rejected, the toast carries
    the rejection instead; either way no record is appended and
    [isProcessing] is false again.  While that read has not settled the
    submission is suspended, still processing, with no record appended.
    A chat send does not read the text: the open turn takes the fixed
    apology and the error logged has a fixed message, so the run is the
    same for every failure status and text. *)
Theorem failure_status_handling (claimText : jsstring) (file : File)
    (claimData : option (list (StreamResult Data)))
    (clock : ClaimChatBox.Clock) (response : Response)
    (w : World ClaimProcessor.HookState) (cw : World ClaimChatBox.ChatState) :
  ok response = false ->
  sendable cw ->
  (forall errorText, text response = Normal errorText ->
     let message :=
       JS.lit "HTTP error! status: " ++ JS.number_toString (status response)
       ++ JS.lit " - " ++ errorText in
     let toast := JS.lit "Connection Error: " ++ message in
     ClaimProcessor.processClaim claimText (Normal response) w
     = (Normal tt,
        {| state :=
             {| ClaimProcessor.isProcessing := false;
                ClaimProcessor.results := [];
                ClaimProcessor.completedNodes := [] |};
           effects :=
             effects w
             ++ [SetIsProcessing false; SetIsProcessing true;
                 Fetch API_ENDPOINT (ClaimBody claimText);
                 ConsoleErrorText "Backend error response:" errorText;
                 ConsoleErrorThrown "Error processing claim:"
                   (JsError message);
                 ToastError toast;
                 SetIsProcessing false] |})
     /\ ClaimProcessor.processFile file (Normal response) w
        = (Normal tt,
           {| state :=
                {| ClaimProcessor.isProcessing := false;
                   ClaimProcessor.results := [];
                   ClaimProcessor.completedNodes := [] |};
              effects :=
                effects w
                ++ [SetIsProcessing false; SetIsProcessing true;
                    Fetch API_FILE_ENDPOINT (FileBody file);
                    ConsoleErrorText "Backend error response:" errorText;
                    ConsoleErrorThrown "Error processing file:"
                      (JsError message);
                    ToastError toast;
                    SetIsProcessing false] |})
     /\ captures [toast] (status response) errorText = true)
  /\ (forall e, text response = Throw e ->
      ClaimProcessor.processClaim claimText (Normal response) w
      = (Normal tt,
         {| state :=
              {| ClaimProcessor.isProcessing := false;
                 ClaimProcessor.results := [];
                 ClaimProcessor.completedNodes := [] |};
            effects :=
              effects w
              ++ [SetIsProcessing false; SetIsProcessing true;
                  Fetch API_ENDPOINT (ClaimBody claimText);
                  ConsoleErrorThrown "Error processing claim:" e;
                  ToastError
                    (ClaimProcessor.error_toast
                       "Failed to connect to the processing server" e);
                  SetIsProcessing false] |})
      /\ ClaimProcessor.processFile file (Normal response) w
         = (Normal tt,
            {| state :=
                 {| ClaimProcessor.isProcessing := false;
                    ClaimProcessor.results := [];
                    ClaimProcessor.completedNodes := [] |};
               effects :=
                 effects w
                 ++ [SetIsProcessing false; SetIsProcessing true;
                     Fetch API_FILE_ENDPOINT (FileBody file);
                     ConsoleErrorThrown "Error processing file:" e;
                     ToastError
                       (ClaimProcessor.error_toast
                          "Failed to process the file" e);
                     SetIsProcessing false] |}))
  /\ (text response = Pending ->
      ClaimProcessor.processClaim claimText (Normal response) w
      = (Pending,
         {| state :=
              {| ClaimProcessor.isProcessing := true;
                 ClaimProcessor.results := [];
                 ClaimProcessor.completedNodes := [] |};
            effects :=
              effects w
              ++ [SetIsProcessing false; SetIsProcessing true;
                  Fetch API_ENDPOINT (ClaimBody claimText)] |})
      /\ ClaimProcessor.processFile file (Normal response) w
         = (Pending,
            {| state :=
                 {| ClaimProcessor.isProcessing := true;
                    ClaimProcessor.results := [];
                    ClaimProcessor.completedNodes := [] |};
               effects :=
                 effects w
                 ++ [SetIsProcessing false; SetIsProcessing true;
                     Fetch API_FILE_ENDPOINT (FileBody file)] |}))
  /\ (forall response' : Response,
      ok response' = false ->
      status response' = status response ->
      text response' = text response ->
      ClaimProcessor.processClaim claimText (Normal response') w
      = ClaimProcessor.processClaim claimText (Normal response) w
      /\ ClaimProcessor.processFile file (Normal response') w
         = ClaimProcessor.processFile file (Normal response) w)
  /\ ClaimChatBox.handleSend claimData clock (Normal response) cw
     = (Normal tt,
        {| state :=
             {| ClaimChatBox.messages :=
                  ClaimChatBox.set_content (assistantMessageId clock)
                    ClaimChatBox.apology
                    (ClaimChatBox.messages (state cw)
                     ++ [user_turn clock (ClaimChatBox.input (state cw));
                         assistant_turn clock []]);
                ClaimChatBox.input := [];
                ClaimChatBox.isLoading := false |};
           effects :=
             effects cw
             ++ [Fetch CHAT_ENDPOINT
                   (ChatBody (ClaimChatBox.claim_text claimData)
                             (ClaimChatBox.input (state cw)));
                 ConsoleErrorThrown "Chat error:"
                   (JsError
                      (JS.lit "Failed to get response from chat API"))] |})
  /\ (forall response' : Response,
      ok response' = false ->
      ClaimChatBox.handleSend claimData clock (Normal response') cw
      = ClaimChatBox.handleSend claimData clock (Normal response) cw).
Proof.
  intros Hok Hsend.
  pose proof (submission_failure API_ENDPOINT (ClaimBody claimText) response
                (JS.lit "Claim processed successfully!")
                "Error processing claim:"
                "Failed to connect to the processing server" w Hok)
    as Hclaim.
  pose proof (submission_failure API_FILE_ENDPOINT (FileBody file) response
                (JS.lit "File processed successfully!")
                "Error processing file:"
                "Failed to process the file" w Hok)
    as Hfile.
  fold (ClaimProcessor.processClaim claimText (Normal response)) in Hclaim.
  fold (ClaimProcessor.processFile file (Normal response)) in Hfile.
  split; [|split; [|split; [|split; [|split]]]].
  - intros errorText Htext message toast.
    rewrite Htext in Hclaim, Hfile.
    split; [exact Hclaim|]. split; [exact Hfile|].
    apply http_error_captures.
  - intros e Htext. rewrite Htext in Hclaim, Hfile.
    split; [exact Hclaim|exact Hfile].
  - intros Htext. rewrite Htext in Hclaim, Hfile.
    split; [exact Hclaim|exact Hfile].
  - intros response' Hok' Hstatus Htext.
    rewrite Hclaim, Hfile.
    pose proof (submission_failure API_ENDPOINT (ClaimBody claimText)
                  response' (JS.lit "Claim processed successfully!")
                  "Error processing claim:"
                  "Failed to connect to the processing server" w Hok')
      as Hclaim'.
    pose proof (submission_failure API_FILE_ENDPOINT (FileBody file)
                  response' (JS.lit "File processed successfully!")
                  "Error processing file:"
                  "Failed to process the file" w Hok')
      as Hfile'.
    fold (ClaimProcessor.processClaim claimText (Normal response'))
      in Hclaim'.
    fold (ClaimProcessor.processFile file (Normal response')) in Hfile'.
    rewrite Hclaim', Hfile', Hstatus, Htext.
    split; reflexivity.
  - exact (chat_failure claimData clock response cw Hok Hsend).
  - intros response' Hok'.
    rewrite (chat_failure claimData clock response cw Hok Hsend).
    exact (chat_failure claimData clock response' cw Hok' Hsend).
Qed.

End FailureStatus.

(* ================================================================= *)
(** ** The properties on the sample platform *)

Section Samples.
Import ClaimProcessor ClaimChatBox Spec Sample.
#[local] Existing Instance Sample.platform.

(** The example payload gives its two records, in order, and both
    nodes. *)
Example intake_and_risk_records :
  state (exec (processStream (streaming [intake_and_risk] (Normal tt)))
              hook_world)
  = {| isProcessing := false;
       results :=
         [ {| node := str "Intake Node"; data := str "{'member_id':'M1'}" |};
           {| node := str "Risk Analyze Node";
              data := str "{'risk_score':10}" |} ];
       completedNodes := [str "Intake Node"; str "Risk Analyze Node"] |}.
Proof. vm_compute. reflexivity. Qed.

(** Cut into pieces, the sample payload gives what it gives whole. *)
Example pieces_as_whole :
  processStream (streaming pieces (Normal tt)) hook_world
  = processStream (streaming [List.concat pieces] (Normal tt)) hook_world.
Proof. vm_compute. reflexivity. Qed.

Lemma malformed_line_isolation_witness :
  results (state (exec (processStream (streaming pieces (Normal tt)))
                       hook_world))
  = [record_A; record_B].
Proof.
  refine (proj1 (proj2
    (malformed_line_isolation (streaming pieces (Normal tt)) pieces
       [line_A] [line_B] line_bad [JS.LF] [record_A] [record_B] hook_world
       _ _ _ _ _ _ _))).
  - reflexivity.
  - vm_compute. reflexivity.
  - right. reflexivity.
  - repeat (constructor; [no_line_feed|]). constructor.
  - constructor; [carries_record|constructor].
  - constructor; [carries_record|constructor].
  - right. vm_compute. reflexivity.
Defined.

Lemma trailing_line_flush_witness :
  processStream (streaming unterminated (Normal tt)) hook_world
  = (Normal tt,
     exec (flush line_B)
          (exec (for_of [str "{'node':'A','data':'" ++ [0x20AC] ++ str "'}"]
                        process_line) hook_world)).
Proof.
  refine (proj1
    (trailing_line_flush (streaming unterminated (Normal tt)) unterminated
       [str "{'node':'A','data':'" ++ [0x20AC] ++ str "'}"] line_B hook_world
       _ _)).
  - reflexivity.
  - vm_compute. reflexivity.
Defined.

Lemma stage_dedup_record_retention_witness :
  List.length
    (results (state (exec (append_record record_A ;; append_record record_A')
                          hook_world))) = 2%nat
  /\ occurrences (node record_A)
       (completedNodes
          (state (exec (append_record record_A ;; append_record record_A')
                       hook_world))) = 1%nat.
Proof.
  refine (let H := stage_dedup_record_retention record_A record_A' hook_world
                     _ _ in
          conj (proj1 (proj2 H)) (proj1 (proj2 (proj2 H)))).
  - reflexivity.
  - simpl. constructor.
Defined.

Lemma terminal_state_guarantee_witness :
  isProcessing
    (state (exec (processClaim (str "claim")
                               (Normal (streaming pieces (Throw NotAnError))))
                 hook_world)) = false.
Proof.
  refine (proj1 (proj2 (proj1
    (terminal_state_guarantee (str "claim") (str "scan.pdf")
       (Normal (streaming pieces (Throw NotAnError))) hook_world _)))).
  simpl. discriminate.
Defined.

Lemma completedNodes_consistent_witness :
  consistent
    (state (exec (processStream (streaming pieces Pending)) hook_world)).
Proof.
  refine (proj1 (proj2 (proj2 (proj2 (proj2 (proj2
    (completedNodes_consistent hook_world _))))))
    (streaming pieces Pending)).
  split; simpl; [constructor|reflexivity].
Defined.

(** The example answer: the contents of the open turn after each chunk. *)
Example hello_world_contents :
  map (fun received =>
         map content
             (messages (state (exec (handleSend None clock
                                       (Normal (streaming received Pending)))
                                    (chat_world "hi")))))
      [[bytes "Hel"]; [bytes "Hel"; bytes "lo, "]; hello_world]
  = map (fun answer => [greeting; str "hi"; str answer])
        ["Hel"; "Hello, "; "Hello, world"]%string
  /\ map content
         (messages (state (exec (handleSend None clock
                                   (Normal (streaming hello_world (Normal tt))))
                                (chat_world "hi"))))
     = [greeting; str "hi"; str "Hello, world"].
Proof. split; vm_compute; reflexivity. Qed.

Lemma chat_progressive_accumulation_witness :
  exists prior,
    messages (state (exec (handleSend None clock
                             (Normal (streaming hello_world Pending)))
                          (chat_world "hi")))
    = prior ++ [assistant_turn clock (str "Hello, world")]
    /\ List.length prior = 2%nat.
Proof.
  refine (proj1
    (chat_progressive_accumulation None clock
       (streaming hello_world Pending) hello_world Pending (chat_world "hi")
       _ _ _ _)).
  - split; reflexivity.
  - reflexivity.
  - reflexivity.
  - left. reflexivity.
Defined.

Lemma chat_failure_recovery_witness :
  exists prior,
    messages (state (exec (handleSend None clock
                             (Normal (streaming hello_world
                                        (Throw NotAnError))))
                          (chat_world "hi")))
    = prior ++ [assistant_turn clock apology]
    /\ List.length prior = 2%nat.
Proof.
  refine (proj1 (proj2 (proj2
    (chat_failure_recovery None clock
       (Normal (streaming hello_world (Throw NotAnError))) (chat_world "hi")
       _ _)))).
  - split; reflexivity.
  - apply (fails_read _ hello_world NotAnError); reflexivity.
Defined.

Lemma blank_or_busy_send_is_noop_witness :
  handleSend None clock (Normal (streaming hello_world (Normal tt)))
             (chat_world "   ")
  = (Normal tt, chat_world "   ").
Proof.
  refine (blank_or_busy_send_is_noop None clock _ (chat_world "   ") _).
  left. vm_compute. reflexivity.
Defined.

Lemma failure_status_handling_witness :
  captures
    [JS.lit "Connection Error: "
     ++ JS.lit "HTTP error! status: " ++ JS.number_toString 500
     ++ JS.lit " - " ++ JS.lit "boom"] 500 (JS.lit "boom") = true.
Proof.
  refine (proj2 (proj2
    (proj1
       (failure_status_handling (str "claim") (str "scan.pdf") None clock
          (failure 500 "boom") hook_world (chat_world "hi") _ _)
       (JS.lit "boom") _))).
  - reflexivity.
  - split; reflexivity.
  - reflexivity.
Defined.

(** C6 as stated fails for the chat: after a send answered with status
    500 and body text "boom", no message content and nothing logged
    carries the status and the text; the outcome is the one of any other
    failure status and text. *)
Lemma chat_failure_status_not_captured :
  ok (failure 500 "boom") = false
  /\ captures
       (chat_surface (exec (handleSend None clock
                              (Normal (failure 500 "boom")))
                           (chat_world "hi")))
       500 (JS.lit "boom") = false
  /\ handleSend None clock (Normal (failure 500 "boom")) (chat_world "hi")
     = handleSend None clock (Normal (failure 404 "nope")) (chat_world "hi").
Proof. repeat split; vm_compute; reflexivity. Qed.

(** When the read of the response text is rejected, a claim submission
    fails with the toast of that rejection: nothing shown carries the
    status. *)
Example rejected_text_status_not_shown :
  let response :=
    {| ok := false; status := 500;
       text := Throw (JsError (JS.lit "body stream already read"));
       body := body (failure 500 "boom") |} in
  let w := exec (processClaim (str "claim") (Normal response)) hook_world in
  shown (effects w)
  = [JS.lit "body stream already read";
     JS.lit "Connection Error: body stream already read"]
  /\ existsb (fun message => JS.contains message (JS.number_toString 500))
             (shown (effects w)) = false
  /\ results (state w) = [].
Proof. repeat split; vm_compute; reflexivity. Qed.

End Samples.

(* ================================================================= *)
(** ** Further properties of [processStream] *)

Section StreamMore.
Context {P : Platform}.
Import ClaimProcessor Spec Props ClaimProcessorFacts ClaimProcessorSteps.

Lemma bind_run {S A B} (m : M S A) (k : A -> M S B) (w : World S) :
  bind m k w
  = match completion m w with
    | Normal a => k a (exec m w)
    | Throw e => (Throw e, exec m w)
    | Pending => (Pending, exec m w)
    end.
Proof.
  unfold bind, completion, exec. now destruct (m w) as [[a|e|] w'].
Qed.

Lemma records_of_app (xs ys : list jsstring) :
  records_of (xs ++ ys) = records_of xs ++ records_of ys.
Proof.
  induction xs as [|x xs IH]; [reflexivity|].
  simpl. destruct (record_of_line x); simpl; now rewrite IH.
Qed.

Lemma process_line_results (line : jsstring) (w : World HookState) :
  results (state (exec (process_line line) w))
  = results (state w)
    ++ match record_of_line line with
       | Some r => [r]
       | None => []
       end.
Proof.
  unfold process_line, record_of_line.
  destruct (JS.truthy (JS.trim line)); simpl; [|now rewrite app_nil_r].
  destruct (JSON_parse (JS.trim line)); simpl; [reflexivity|].
  now rewrite app_nil_r.
Qed.

Lemma process_lines_results (lines : list jsstring) (w : World HookState) :
  results (state (exec (for_of lines process_line) w))
  = results (state w) ++ records_of lines.
Proof.
  revert w. induction lines as [|line lines IH]; intros w.
  - simpl. now rewrite app_nil_r.
  - rewrite process_lines_cons, IH, process_line_results. simpl.
    destruct (record_of_line line); simpl;
      [now rewrite <- app_assoc|now rewrite app_nil_r].
Qed.

Lemma process_line_isProcessing (line : jsstring) (w : World HookState) :
  isProcessing (state (exec (process_line line) w)) = isProcessing (state w).
Proof.
  unfold process_line.
  destruct (JS.truthy (JS.trim line)); simpl; [|reflexivity].
  now destruct (JSON_parse (JS.trim line)).
Qed.

Lemma process_lines_isProcessing (lines : list jsstring)
    (w : World HookState) :
  isProcessing (state (exec (for_of lines process_line) w))
  = isProcessing (state w).
Proof.
  revert w. induction lines as [|line lines IH]; intros w; [reflexivity|].
  now rewrite process_lines_cons, IH, process_line_isProcessing.
Qed.

(** The loop body warns once for an unparsable line and not otherwise. *)
Lemma process_line_effects (line : jsstring) (w : World HookState) :
  effects (exec (process_line line) w)
  = effects w
    ++ (if unparsable line
        then [ConsoleWarn "Failed to parse line:" (JS.trim line)]
        else []).
Proof.
  unfold process_line, unparsable.
  destruct (JS.truthy (JS.trim line)); simpl; [|now rewrite app_nil_r].
  destruct (JSON_parse (JS.trim line)); simpl; [|reflexivity].
  now rewrite app_nil_r.
Qed.

Lemma flush_effects (buffer : jsstring) (w : World HookState) :
  effects (exec (flush buffer) w)
  = effects w
    ++ (if unparsable buffer
        then [ConsoleWarn "Failed to parse remaining buffer:" buffer]
        else []).
Proof.
  unfold flush, unparsable.
  destruct (JS.truthy (JS.trim buffer)); simpl; [|now rewrite app_nil_r].
  destruct (JSON_parse (JS.trim buffer)); simpl; [|reflexivity].
  now rewrite app_nil_r.
Qed.

Lemma process_lines_effects (lines : list jsstring) (w : World HookState) :
  exists new,
    effects (exec (for_of lines process_line) w) = effects w ++ new
    /\ Forall is_warning new
    /\ List.length new = List.length (filter unparsable lines).
Proof.
  revert w. induction lines as [|line lines IH]; intros w.
  - exists []. simpl. now rewrite app_nil_r.
  - rewrite process_lines_cons.
    destruct (IH (exec (process_line line) w)) as [new [E [W L]]].
    rewrite E, process_line_effects. simpl filter.
    destruct (unparsable line).
    + exists (ConsoleWarn "Failed to parse line:" (JS.trim line) :: new).
      rewrite <- app_assoc. simpl. repeat split; auto.
      constructor; [exact I|assumption].
    + exists new. now rewrite app_nil_r.
Qed.

(** What [processStream] does on a readable body, whatever the last read
    does: the complete lines go through the loop, the last segment is
    flushed only when the stream ends. *)
Lemma processStream_run (response : Response) (reader : BodyStream)
    (w : World HookState) :
  body response = Some reader ->
  completion (processStream response) w
  = match ending reader with
    | Normal _ => Normal tt
    | Throw e => Throw e
    | Pending => Pending
    end
  /\ results (state (exec (processStream response) w))
     = results (state w)
       ++ records_of match ending reader with
                     | Normal _ => delivered_lines reader
                     | _ => removelast (delivered_lines reader)
                     end
  /\ isProcessing (state (exec (processStream response) w))
     = isProcessing (state w)
  /\ exists new,
       effects (exec (processStream response) w) = effects w ++ new
       /\ Forall is_warning new
       /\ List.length new
          = List.length
              (filter unparsable
                 match ending reader with
                 | Normal _ => delivered_lines reader
                 | _ => removelast (delivered_lines reader)
                 end).
Proof.
  intros Hbody.
  pose proof (processStream_completion response w) as Hc.
  rewrite Hbody in Hc. split; [exact Hc|].
  pose proof (processStream_spec _ _ w Hbody) as Hrun. cbv zeta in Hrun.
  fold (delivered_lines reader) in Hrun.
  assert (Hn : delivered_lines reader <> []) by apply JSFacts.split_not_nil.
  remember (delivered_lines reader) as lines eqn:Hlines.
  destruct (exists_last Hn) as [interior [final Hl]]. subst lines.
  rewrite Hl in *. clear Hl Hn. rewrite removelast_last, last_last in *.
  assert (Hex : exec (processStream response) w
                = match ending reader with
                  | Normal _ =>
                      exec (flush final)
                           (exec (for_of interior process_line) w)
                  | _ => exec (for_of interior process_line) w
                  end).
  { unfold exec at 1. rewrite Hrun.
    now destruct (ending reader) as [[]|e|]. }
  rewrite Hex. clear Hex Hrun Hc.
  destruct (process_lines_effects interior w) as [new [E [W L]]].
  destruct (ending reader) as [[]|e|].
  - rewrite flush_state, process_line_results, process_line_isProcessing.
    rewrite process_lines_results, process_lines_isProcessing.
    rewrite flush_effects, E, records_of_app, filter_app, length_app.
    rewrite <- !app_assoc. simpl records_of. simpl filter.
    split; [now destruct (record_of_line final)|].
    split; [reflexivity|].
    destruct (unparsable final).
    + exists (new ++ [ConsoleWarn "Failed to parse remaining buffer:"
                        final]).
      split; [reflexivity|]. split.
      * apply Forall_app. split; [assumption|].
        constructor; [exact I|constructor].
      * rewrite length_app, L. reflexivity.
    + exists new. rewrite app_nil_r.
      split; [reflexivity|]. split; [assumption|].
      rewrite L. simpl. lia.
  - rewrite process_lines_results, process_lines_isProcessing.
    split; [reflexivity|]. split; [reflexivity|]. exists new. auto.
  - rewrite process_lines_results, process_lines_isProcessing.
    split; [reflexivity|]. split; [reflexivity|]. exists new. auto.
Qed.

(** X1. When the stream ends, [processStream] completes normally; it has
    appended the record of every line that carries one, in order, however
    many blank or unparsable lines lie between them, and it has logged one
    warning for each unparsable line and nothing else. *)
Theorem stream_records_of_all_lines (response : Response)
    (reader : BodyStream) (w : World HookState) :
  body response = Some reader ->
  ending reader = Normal tt ->
  completion (processStream response) w = Normal tt
  /\ results (state (exec (processStream response) w))
     = results (state w) ++ records_of (delivered_lines reader)
  /\ exists new,
       effects (exec (processStream response) w) = effects w ++ new
       /\ Forall is_warning new
       /\ List.length new
          = List.length (filter unparsable (delivered_lines reader)).
Proof.
  intros Hbody Hend.
  destruct (processStream_run response reader w Hbody) as [Hc [Hr [_ He]]].
  rewrite Hend in Hc, Hr, He. auto.
Qed.

(** X2. When a read is rejected, or while the next read has not settled,
    the records of the lines before the last line feed have been appended
    and the segment after it has not, even when it is a whole record; the
    rejection leaves [processStream] as it is. *)
Theorem stream_interrupted_keeps_complete_lines (response : Response)
    (reader : BodyStream) (w : World HookState) :
  body response = Some reader ->
  ending reader <> Normal tt ->
  completion (processStream response) w
  = match ending reader with
    | Throw e => Throw e
    | _ => Pending
    end
  /\ results (state (exec (processStream response) w))
     = results (state w) ++ records_of (removelast (delivered_lines reader)).
Proof.
  intros Hbody Hend.
  destruct (processStream_run response reader w Hbody) as [Hc [Hr _]].
  destruct (ending reader) as [[]|e|]; [now contradiction Hend|auto..].
Qed.

Lemma extends_refl (w : World HookState) : extends w w.
Proof. split; exists []; now rewrite app_nil_r. Qed.

Lemma extends_trans (w1 w2 w3 : World HookState) :
  extends w1 w2 -> extends w2 w3 -> extends w1 w3.
Proof.
  intros [[r12 R12] [n12 N12]] [[r23 R23] [n23 N23]]. split.
  - exists (r12 ++ r23). now rewrite R23, R12, app_assoc.
  - exists (n12 ++ n23). now rewrite N23, N12, app_assoc.
Qed.

Lemma extends_perform (e : Effect) : respects extends (perform e).
Proof. intros w. split; exists []; simpl; now rewrite app_nil_r. Qed.

Lemma extends_append_record (r : StreamResult Data) :
  respects extends (append_record r).
Proof.
  intros w. unfold exec. rewrite append_record_run. split; simpl.
  - now exists [r].
  - destruct (JS.includes (completedNodes (state w)) (node r)).
    + exists []. now rewrite app_nil_r.
    + now exists [node r].
Qed.

(** X3. [processStream] only appends: whatever the response and however
    the stream ends, the results and the completed nodes it started from
    are a prefix of those it leaves. *)
Theorem stream_append_only (response : Response) (w : World HookState) :
  extends w (exec (processStream response) w).
Proof.
  apply (processStream_respects extends).
  - exact extends_refl.
  - exact extends_trans.
  - intros e _. apply extends_perform.
  - exact extends_append_record.
Qed.

End StreamMore.

(* ================================================================= *)
(** ** Further properties of the submissions *)

Section SubmissionMore.
Context {P : Platform}.
Import ClaimProcessor Spec Props ClaimProcessorFacts ClaimProcessorSteps.

Lemma toasts_app (es1 es2 : list Effect) :
  toasts (es1 ++ es2) = toasts es1 ++ toasts es2.
Proof.
  induction es1 as [|e es1 IH]; [reflexivity|].
  destruct e; simpl; now rewrite IH.
Qed.

Lemma fetches_app (es1 es2 : list Effect) :
  fetches (es1 ++ es2) = fetches es1 ++ fetches es2.
Proof.
  induction es1 as [|e es1 IH]; [reflexivity|].
  destruct e; simpl; now rewrite IH.
Qed.

Lemma warnings_only (new : list Effect) :
  Forall is_warning new ->
  toasts new = [] /\ fetches new = [] /\ isProcessing_writes new = [].
Proof.
  induction 1 as [|e new He _ IH]; [now repeat split|].
  destruct e; simpl in He; try contradiction. exact IH.
Qed.

Lemma logged_logged {S} (w : World S) (es1 es2 : list Effect) :
  logged (logged w es1) es2 = logged w (es1 ++ es2).
Proof. unfold logged. simpl. now rewrite app_assoc. Qed.

(** The [try]/[catch] part of a submission, case by case, for any
    reader [stream] of the body. *)
Lemma attempt_cases (stream : Response -> M HookState unit)
    (endpoint : Endpoint) (request : RequestBody)
    (net : Completion Response) (done : jsstring) (label fallback : string)
    (w0 : World HookState) :
  try_catch
    (response <- fetch endpoint request net ;;
     check_ok response ;;
     stream response ;;
     perform (ToastSuccess done))
    (fun error =>
       perform (ConsoleErrorThrown label error) ;;
       perform (ToastError (error_toast fallback error))) w0
  = let w1 := logged w0 [Fetch endpoint request] in
    let caught (e : Thrown) :=
      [ConsoleErrorThrown label e; ToastError (error_toast fallback e)] in
    match net with
    | Normal response =>
        if ok response then
          match completion (stream response) w1 with
          | Normal _ =>
              (Normal tt,
               logged (exec (stream response) w1) [ToastSuccess done])
          | Throw e =>
              (Normal tt, logged (exec (stream response) w1) (caught e))
          | Pending => (Pending, exec (stream response) w1)
          end
        else
          match text response with
          | Normal errorText =>
              (Normal tt,
               logged w1
                 (ConsoleErrorText "Backend error response:" errorText
                  :: caught
                       (JsError (JS.lit "HTTP error! status: "
                                 ++ JS.number_toString (status response)
                                 ++ JS.lit " - " ++ errorText))))
          | Throw e => (Normal tt, logged w1 (caught e))
          | Pending => (Pending, w1)
          end
    | Throw e => (Normal tt, logged w1 (caught e))
    | Pending => (Pending, w1)
    end.
Proof.
  unfold try_catch, fetch, check_ok, bind, await, perform, ret, throw,
    completion, exec, logged.
  destruct net as [response|e|]; cbn [fst snd state effects].
  - destruct (ok response); cbn [negb fst snd state effects].
    + destruct (stream response _) as [[[]|e|] w2];
        cbn [fst snd state effects]; try reflexivity.
      now rewrite <- app_assoc.
    + destruct (text response) as [errorText|e|];
        cbn [fst snd state effects]; try reflexivity.
      * now rewrite <- !app_assoc.
      * now rewrite <- !app_assoc.
  - now rewrite <- !app_assoc.
  - reflexivity.
Qed.

(** What the [try]/[catch] part of a submission leaves: the records the
    response has delivered, one request, and, unless it is suspended, the
    success toast or the logged error and its toast. *)
Lemma attempt_outcome (endpoint : Endpoint) (request : RequestBody)
    (net : Completion Response) (done : jsstring) (label fallback : string)
    (w0 : World HookState) :
  let attempt :=
    try_catch
      (response <- fetch endpoint request net ;;
       check_ok response ;;
       processStream response ;;
       perform (ToastSuccess done))
      (fun error =>
         perform (ConsoleErrorThrown label error) ;;
         perform (ToastError (error_toast fallback error))) in
  results (state (exec attempt w0))
  = results (state w0) ++ submitted_records net
  /\ exists pre,
       toasts pre = [] /\ fetches pre = [] /\
       effects (exec attempt w0)
       = effects w0
         ++ Fetch endpoint request :: pre
         ++ match completion attempt w0 with
            | Pending => []
            | _ =>
                match submission_error net with
                | None => [ToastSuccess done]
                | Some e =>
                    [ConsoleErrorThrown label e;
                     ToastError (error_toast fallback e)]
                end
            end.
Proof.
  intros attempt. unfold attempt, exec, completion.
  rewrite (attempt_cases processStream). cbv zeta.
  set (w1 := logged w0 [Fetch endpoint request]).
  unfold submitted_records, submission_error.
  destruct net as [response|e|].
  - destruct (ok response).
    + destruct (body response) as [reader|] eqn:Hbody.
      * destruct (processStream_run response reader w1 Hbody)
          as [Hc [Hr [_ [new [He [Hwarn _]]]]]].
        destruct (warnings_only new Hwarn) as [Ht [Hf _]].
        rewrite Hc.
        destruct (ending reader) as [[]|e|]; cbn [fst snd logged state effects];
          (split; [exact Hr|]); exists new; rewrite He; cbn;
          repeat split; try assumption;
          now rewrite <- ?app_assoc, ?app_nil_r.
      * unfold completion, exec, processStream. rewrite Hbody. cbn.
        split; [now rewrite app_nil_r|].
        exists []. repeat split. now rewrite <- !app_assoc.
    + destruct (text response) as [errorText|e|]; cbn.
      * split; [now rewrite app_nil_r|].
        exists [ConsoleErrorText "Backend error response:" errorText].
        repeat split. now rewrite <- !app_assoc.
      * split; [now rewrite app_nil_r|].
        exists []. repeat split. now rewrite <- !app_assoc.
      * split; [now rewrite app_nil_r|].
        exists []. repeat split.
  - cbn. split; [now rewrite app_nil_r|].
    exists []. repeat split. now rewrite <- !app_assoc.
  - cbn. split; [now rewrite app_nil_r|].
    exists []. repeat split.
Qed.

(** While the response has not settled the [try]/[catch] part is
    suspended. *)
Lemma attempt_pending (endpoint : Endpoint) (request : RequestBody)
    (net : Completion Response) (done : jsstring) (label fallback : string)
    (w0 : World HookState) :
  ~ settled net ->
  completion
    (try_catch
       (response <- fetch endpoint request net ;;
        check_ok response ;;
        processStream response ;;
        perform (ToastSuccess done))
       (fun error =>
          perform (ConsoleErrorThrown label error) ;;
          perform (ToastError (error_toast fallback error)))) w0
  = Pending.
Proof.
  intros Hns. unfold completion at 1.
  rewrite (attempt_cases processStream). cbv zeta.
  unfold settled in Hns.
  destruct net as [response|e|]; [|now contradiction Hns|reflexivity].
  destruct (ok response).
  - rewrite processStream_completion.
    destruct (body response) as [reader|]; [|now contradiction Hns].
    destruct (ending reader) as [[]|e|]; try reflexivity;
      exfalso; apply Hns; discriminate.
  - destruct (text response) as [errorText|e|]; try reflexivity;
      exfalso; apply Hns; discriminate.
Qed.

Lemma setIsProcessing_run (value : bool) (w : World HookState) :
  setIsProcessing value w
  = (Normal tt,
     {| state :=
          {| isProcessing := value;
             results := results (state w);
             completedNodes := completedNodes (state w) |};
        effects := effects w ++ [SetIsProcessing value] |}).
Proof. reflexivity. Qed.

(** A whole submission: what it leaves in the state and what it does. *)
Lemma submission_outcome (endpoint : Endpoint) (request : RequestBody)
    (net : Completion Response) (done : jsstring) (label fallback : string)
    (w : World HookState) :
  let run :=
    (reset ;;
     setIsProcessing true ;;
     try_finally
       (try_catch
          (response <- fetch endpoint request net ;;
           check_ok response ;;
           processStream response ;;
           perform (ToastSuccess done))
          (fun error =>
             perform (ConsoleErrorThrown label error) ;;
             perform (ToastError (error_toast fallback error))))
       (setIsProcessing false)) in
  (settled net -> completion run w = Normal tt)
  /\ (~ settled net -> completion run w = Pending)
  /\ results (state (exec run w)) = submitted_records net
  /\ isProcessing (state (exec run w))
     = match completion run w with
       | Pending => true
       | _ => false
       end
  /\ exists new,
       effects (exec run w) = effects w ++ new
       /\ fetches new = [Fetch endpoint request]
       /\ toasts new
          = match completion run w with
            | Pending => []
            | _ =>
                match submission_error net with
                | None => [ToastSuccess done]
                | Some e => [ToastError (error_toast fallback e)]
                end
            end.
Proof.
  intros run. unfold run, completion, exec.
  set (attempt := try_catch _ _).
  rewrite (bind_normal _ _ _ tt) by reflexivity.
  rewrite (bind_normal _ _ _ tt) by reflexivity.
  set (w0 := exec (setIsProcessing true) (exec reset w)).
  assert (Hw0 : effects w0
                = effects w ++ [SetIsProcessing false; SetIsProcessing true])
    by (unfold w0; simpl; now rewrite <- app_assoc).
  destruct (attempt_outcome endpoint request net done label fallback w0)
    as [Hr [pre [Ht [Hf He]]]].
  fold attempt in Hr, He.
  assert (Hq : leaves_isProcessing w0 (exec attempt w0)).
  { apply attempt_respects.
    - exact leaves_isProcessing_refl.
    - exact leaves_isProcessing_trans.
    - exact leaves_isProcessing_perform.
    - exact leaves_isProcessing_append_record. }
  destruct Hq as [Hp _].
  pose proof (attempt_completion endpoint request net done label fallback w0)
    as Hsettled.
  pose proof (attempt_pending endpoint request net done label fallback w0)
    as Hpending.
  fold attempt in Hsettled, Hpending.
  unfold try_finally. rewrite (run_eq attempt w0).
  assert (Hthrow : forall e, completion attempt w0 <> Throw e).
  { intros e He'. unfold completion, attempt in He'.
    rewrite (attempt_cases processStream) in He'. cbv zeta in He'.
    destruct net as [response|e'|]; try discriminate.
    destruct (ok response).
    - destruct (completion (processStream response) _); discriminate.
    - destruct (text response); discriminate. }
  destruct (completion attempt w0) as [[]|e|] eqn:Hc;
    [| now destruct (Hthrow e) |]; rewrite ?setIsProcessing_run;
    cbn [fst snd state effects results isProcessing].
  - (* returned *)
    split; [reflexivity|].
    split; [intros Hns; specialize (Hpending Hns); discriminate|].
    split; [exact Hr|]. split; [reflexivity|].
    exists ([SetIsProcessing false; SetIsProcessing true]
            ++ (Fetch endpoint request :: pre
                ++ match submission_error net with
                   | None => [ToastSuccess done]
                   | Some e =>
                       [ConsoleErrorThrown label e;
                        ToastError (error_toast fallback e)]
                   end)
            ++ [SetIsProcessing false]).
    split; [rewrite He, Hw0; now rewrite <- !app_assoc|].
    split.
    + rewrite !fetches_app. cbn [fetches app]. rewrite fetches_app, Hf.
      now destruct (submission_error net).
    + rewrite !toasts_app. cbn [toasts app]. rewrite toasts_app, Ht.
      now destruct (submission_error net).
  - (* suspended *)
    split; [intros Hs; specialize (Hsettled Hs); discriminate|].
    split; [reflexivity|].
    split; [exact Hr|]. split; [exact Hp|].
    exists ([SetIsProcessing false; SetIsProcessing true]
            ++ Fetch endpoint request :: pre).
    rewrite app_nil_r in He.
    split; [rewrite He, Hw0; now rewrite <- !app_assoc|].
    split.
    + rewrite fetches_app. cbn [fetches app]. now rewrite Hf.
    + rewrite toasts_app. cbn [toasts app]. exact Ht.
Qed.

(** X4. Once the response has settled, a submission shows exactly one
    toast: the success toast when the body has been read to its end (also
    when no line gave a record), and otherwise the error toast made from
    the error of the request, of the failure status, of the missing body or
    of the rejected read, with the fallback text of the submission for a
    thrown value that is no [Error]. *)
Theorem submission_shows_one_toast (claimText : jsstring) (file : File)
    (net : Completion Response) (w : World HookState) :
  settled net ->
  (exists new,
     effects (exec (processClaim claimText net) w) = effects w ++ new
     /\ toasts new
        = match submission_error net with
          | None => [ToastSuccess (JS.lit "Claim processed successfully!")]
          | Some e =>
              [ToastError
                 (error_toast "Failed to connect to the processing server"
                              e)]
          end)
  /\ (exists new,
        effects (exec (processFile file net) w) = effects w ++ new
        /\ toasts new
           = match submission_error net with
             | None => [ToastSuccess (JS.lit "File processed successfully!")]
             | Some e =>
                 [ToastError (error_toast "Failed to process the file" e)]
             end).
Proof.
  intros Hs. split.
  - destruct (submission_outcome API_ENDPOINT (ClaimBody claimText) net
                (JS.lit "Claim processed successfully!")
                "Error processing claim:"
                "Failed to connect to the processing server" w)
      as [Hc [_ [_ [_ [new [He [_ Ht]]]]]]].
    rewrite (Hc Hs) in Ht. exists new. split; assumption.
  - destruct (submission_outcome API_FILE_ENDPOINT (FileBody file) net
                (JS.lit "File processed successfully!")
                "Error processing file:"
                "Failed to process the file" w)
      as [Hc [_ [_ [_ [new [He [_ Ht]]]]]]].
    rewrite (Hc Hs) in Ht. exists new. split; assumption.
Qed.

(** X5. The results a submission leaves are those of its own response,
    whatever the hook held before: the records of the lines delivered (of
    the lines before the last line feed while the body is open or when a
    read was rejected), none without an ok response with a body; and the
    completed nodes are the first occurrences of their nodes. *)
Theorem submission_results_from_response (claimText : jsstring) (file : File)
    (net : Completion Response) (w : World HookState) :
  (results (state (exec (processClaim claimText net) w))
   = submitted_records net
   /\ completedNodes (state (exec (processClaim claimText net) w))
      = first_occurrences (map node (submitted_records net)))
  /\ (results (state (exec (processFile file net) w))
      = submitted_records net
      /\ completedNodes (state (exec (processFile file net) w))
         = first_occurrences (map node (submitted_records net))).
Proof.
  split.
  - destruct (submission_outcome API_ENDPOINT (ClaimBody claimText) net
                (JS.lit "Claim processed successfully!")
                "Error processing claim:"
                "Failed to connect to the processing server" w)
      as [_ [_ [Hr _]]].
    split; [exact Hr|].
    destruct (keeps_consistent_submission API_ENDPOINT (ClaimBody claimText)
                net (JS.lit "Claim processed successfully!")
                "Error processing claim:"
                "Failed to connect to the processing server" w) as [_ Heq].
    unfold processClaim. rewrite Heq. f_equal. f_equal. exact Hr.
  - destruct (submission_outcome API_FILE_ENDPOINT (FileBody file) net
                (JS.lit "File processed successfully!")
                "Error processing file:"
                "Failed to process the file" w)
      as [_ [_ [Hr _]]].
    split; [exact Hr|].
    destruct (keeps_consistent_submission API_FILE_ENDPOINT (FileBody file)
                net (JS.lit "File processed successfully!")
                "Error processing file:"
                "Failed to process the file" w) as [_ Heq].
    unfold processFile. rewrite Heq. f_equal. f_equal. exact Hr.
Qed.

(** X6. While the request, the text of a failure response or a read of
    the body has not settled, a submission is suspended with
    [isProcessing] true and has shown no toast. *)
Theorem submission_in_flight (claimText : jsstring) (file : File)
    (net : Completion Response) (w : World HookState) :
  ~ settled net ->
  (completion (processClaim claimText net) w = Pending
   /\ isProcessing (state (exec (processClaim claimText net) w)) = true
   /\ exists new,
        effects (exec (processClaim claimText net) w) = effects w ++ new
        /\ toasts new = [])
  /\ (completion (processFile file net) w = Pending
      /\ isProcessing (state (exec (processFile file net) w)) = true
      /\ exists new,
           effects (exec (processFile file net) w) = effects w ++ new
           /\ toasts new = []).
Proof.
  intros Hns. split.
  - destruct (submission_outcome API_ENDPOINT (ClaimBody claimText) net
                (JS.lit "Claim processed successfully!")
                "Error processing claim:"
                "Failed to connect to the processing server" w)
      as [_ [Hc [_ [Hp [new [He [_ Ht]]]]]]].
    rewrite (Hc Hns) in Hp, Ht.
    split; [exact (Hc Hns)|]. split; [exact Hp|].
    exists new. split; assumption.
  - destruct (submission_outcome API_FILE_ENDPOINT (FileBody file) net
                (JS.lit "File processed successfully!")
                "Error processing file:"
                "Failed to process the file" w)
      as [_ [Hc [_ [Hp [new [He [_ Ht]]]]]]].
    rewrite (Hc Hns) in Hp, Ht.
    split; [exact (Hc Hns)|]. split; [exact Hp|].
    exists new. split; assumption.
Qed.

(** X7. A submission issues exactly one request, whatever comes back: to
    the claim endpoint with the claim text as given, or to the file
    endpoint with the file. *)
Theorem submission_single_request (claimText : jsstring) (file : File)
    (net : Completion Response) (w : World HookState) :
  (exists new,
     effects (exec (processClaim claimText net) w) = effects w ++ new
     /\ fetches new = [Fetch API_ENDPOINT (ClaimBody claimText)])
  /\ (exists new,
        effects (exec (processFile file net) w) = effects w ++ new
        /\ fetches new = [Fetch API_FILE_ENDPOINT (FileBody file)]).
Proof.
  split.
  - destruct (submission_outcome API_ENDPOINT (ClaimBody claimText) net
                (JS.lit "Claim processed successfully!")
                "Error processing claim:"
                "Failed to connect to the processing server" w)
      as [_ [_ [_ [_ [new [He [Hf _]]]]]]].
    exists new. split; assumption.
  - destruct (submission_outcome API_FILE_ENDPOINT (FileBody file) net
                (JS.lit "File processed successfully!")
                "Error processing file:"
                "Failed to process the file" w)
      as [_ [_ [_ [_ [new [He [Hf _]]]]]]].
    exists new. split; assumption.
Qed.

End SubmissionMore.

(* ================================================================= *)
(** ** Further properties of the chat box *)

Section ChatMore.
Context {P : Platform}.
Import ClaimChatBox Spec Props ClaimChatBoxFacts.

(** A send that is not blocked, whatever comes back. *)
Lemma handleSend_outcome (claimData : option (list (StreamResult Data)))
    (clock : Clock) (net : Completion Response) (w : World ChatState) :
  sendable w ->
  exists c : Completion unit,
    (chat_settled net -> c = Normal tt)
    /\ (~ chat_settled net -> c = Pending)
    /\ handleSend claimData clock net w
       = (c,
          {| state :=
               {| messages :=
                    match chat_content net with
                    | Some v =>
                        set_content (assistantMessageId clock) v
                                    (opened clock w)
                    | None => opened clock w
                    end;
                  input := [];
                  isLoading :=
                    match c with
                    | Pending => true
                    | _ => false
                    end |};
             effects :=
               effects w
               ++ Fetch CHAT_ENDPOINT
                    (ChatBody (claim_text claimData) (input (state w)))
                  :: match chat_error net with
                     | Some e => [ConsoleErrorThrown "Chat error:" e]
                     | None => []
                     end |}).
Proof.
  intros Hsend.
  rewrite (handleSend_dispatch claimData clock net w Hsend).
  unfold try_finally, try_catch, bind at 1, await at 1.
  unfold chat_content, chat_error, chat_settled, opened.
  destruct net as [response|e|].
  - unfold bind at 1. destruct (ok response); cbn [negb].
    + cbn [ret fst snd]. destruct (body response) as [reader|].
      * rewrite read_loop_run. cbn [state effects messages input isLoading].
        destruct (ending reader) as [[]|e|].
        -- exists (Normal tt). split; [reflexivity|].
           split; [intros H; exfalso; apply H; discriminate|].
           destruct (chunks reader); chat_run;
             rewrite <- ?app_assoc, ?app_nil_r; reflexivity.
        -- exists (Normal tt). split; [reflexivity|].
           split; [intros H; exfalso; apply H; discriminate|].
           destruct (chunks reader); chat_run;
             rewrite <- ?app_assoc, ?set_content_twice; reflexivity.
        -- exists Pending. split; [intros H; now contradiction H|].
           split; [reflexivity|].
           destruct (chunks reader); chat_run;
             rewrite <- ?app_assoc, ?app_nil_r; reflexivity.
      * exists (Normal tt). split; [reflexivity|].
        split; [intros H; now contradiction H|].
        chat_run. rewrite <- ?app_assoc, ?app_nil_r. reflexivity.
    + exists (Normal tt). split; [reflexivity|].
      split; [intros H; now contradiction H|].
      chat_run. rewrite <- ?app_assoc, ?app_nil_r. reflexivity.
  - exists (Normal tt). split; [reflexivity|].
    split; [intros H; now contradiction H|].
    chat_run. rewrite <- ?app_assoc, ?app_nil_r. reflexivity.
  - exists Pending. split; [intros H; now contradiction H|].
    split; [reflexivity|]. chat_run. rewrite <- ?app_assoc, ?app_nil_r. reflexivity.
Qed.

(** X8. An ok response without a body is no error for the chat: the send
    completes normally, the turn it opened stays empty, nothing is logged
    and [isLoading] is false again. *)
Theorem chat_missing_body_is_silent
    (claimData : option (list (StreamResult Data))) (clock : Clock)
    (response : Response) (w : World ChatState) :
  sendable w ->
  ok response = true ->
  body response = None ->
  handleSend claimData clock (Normal response) w
  = (Normal tt,
     {| state :=
          {| messages :=
               messages (state w)
               ++ [user_turn clock (input (state w));
                   assistant_turn clock []];
             input := [];
             isLoading := false |};
        effects :=
          effects w
          ++ [Fetch CHAT_ENDPOINT
                (ChatBody (claim_text claimData) (input (state w)))] |}).
Proof.
  intros Hsend Hok Hbody.
  destruct (handleSend_outcome claimData clock (Normal response) w Hsend)
    as [c [Hc [_ Hrun]]].
  rewrite Hrun.
  unfold chat_content, chat_error, chat_settled in *.
  rewrite Hok, Hbody in *. now rewrite (Hc I).
Qed.

Lemma set_content_ids (mid v : jsstring) (prev : list Message) :
  map id (set_content mid v prev) = map id prev
  /\ map role (set_content mid v prev) = map role prev
  /\ map timestamp (set_content mid v prev) = map timestamp prev.
Proof.
  unfold set_content. rewrite !map_map.
  repeat split; apply map_ext; intros msg;
    now destruct (JS.eqb (id msg) mid).
Qed.

Lemma set_content_other (mid v : jsstring) (prev : list Message)
    (i : nat) (m : Message) :
  nth_error prev i = Some m -> id m <> mid ->
  nth_error (set_content mid v prev) i = Some m.
Proof.
  intros Hnth Hid. unfold set_content.
  rewrite nth_error_map, Hnth. simpl.
  apply JSFacts.eqb_neq in Hid. now rewrite Hid.
Qed.

(** X9. A send that is not blocked adds exactly the question and the
    placeholder, in this order, at the end: whatever comes back, the
    earlier messages keep their place, id, role and time, and each keeps
    its content unless its id is the one given to the placeholder. *)
Theorem chat_send_keeps_history
    (claimData : option (list (StreamResult Data))) (clock : Clock)
    (net : Completion Response) (w : World ChatState) :
  sendable w ->
  let after := messages (state (exec (handleSend claimData clock net) w)) in
  map id after
  = map id (messages (state w))
    ++ [JS.number_toString (user_now clock); assistantMessageId clock]
  /\ map role after = map role (messages (state w)) ++ [user; assistant]
  /\ map timestamp after
     = map timestamp (messages (state w))
       ++ [user_date clock; assistant_date clock]
  /\ forall i m,
       nth_error (messages (state w)) i = Some m ->
       id m <> assistantMessageId clock ->
       nth_error after i = Some m.
Proof.
  intros Hsend after.
  destruct (handleSend_outcome claimData clock net w Hsend)
    as [c [_ [_ Hrun]]].
  unfold after, exec. rewrite Hrun. cbn [snd state messages].
  assert (Hopened :
    map id (opened clock w)
    = map id (messages (state w))
      ++ [JS.number_toString (user_now clock); assistantMessageId clock]
    /\ map role (opened clock w)
       = map role (messages (state w)) ++ [user; assistant]
    /\ map timestamp (opened clock w)
       = map timestamp (messages (state w))
         ++ [user_date clock; assistant_date clock]
    /\ forall i m,
         nth_error (messages (state w)) i = Some m ->
         nth_error (opened clock w) i = Some m).
  { unfold opened. rewrite !map_app. repeat split.
    intros i m Hnth. rewrite nth_error_app1; [assumption|].
    apply nth_error_Some. now rewrite Hnth. }
  destruct Hopened as [Hi [Hr [Ht Hn]]].
  destruct (chat_content net) as [v|].
  - destruct (set_content_ids (assistantMessageId clock) v (opened clock w))
      as [Hi' [Hr' Ht']].
    rewrite Hi', Hr', Ht'. repeat split; try assumption.
    intros i m Hnth Hid. apply set_content_other; auto.
  - repeat split; try assumption. intros i m Hnth _. auto.
Qed.

(** X10. A send that is not blocked takes the input and issues exactly
    one request, with the question as typed and the claim text of the last
    result; once the request has settled (a failure status settles it, its
    text is not read) the send has completed normally with [isLoading]
    false, and until then it is suspended with [isLoading] true. *)
Theorem chat_send_settles
    (claimData : option (list (StreamResult Data))) (clock : Clock)
    (net : Completion Response) (w : World ChatState) :
  sendable w ->
  let w' := exec (handleSend claimData clock net) w in
  (chat_settled net ->
   completion (handleSend claimData clock net) w = Normal tt
   /\ isLoading (state w') = false)
  /\ (~ chat_settled net ->
      completion (handleSend claimData clock net) w = Pending
      /\ isLoading (state w') = true)
  /\ input (state w') = []
  /\ exists new,
       effects w' = effects w ++ new
       /\ fetches new
          = [Fetch CHAT_ENDPOINT
               (ChatBody (claim_text claimData) (input (state w)))].
Proof.
  intros Hsend w'.
  destruct (handleSend_outcome claimData clock net w Hsend)
    as [c [Hs [Hp Hrun]]].
  unfold w', completion, exec. rewrite Hrun.
  cbn [fst snd state effects input isLoading].
  split; [intros H; now rewrite (Hs H)|].
  split; [intros H; now rewrite (Hp H)|].
  split; [reflexivity|].
  eexists. split; [reflexivity|].
  cbn [fetches]. now destruct (chat_error net).
Qed.

End ChatMore.

(* ================================================================= *)
(** ** Properties of the claims history *)

Section HistoryMore.
Context {P : Platform}.
Import ClaimsHistory Props.

Lemma saveClaim_run (text : jsstring) (summary' : option jsstring)
    (uuid : jsstring) (now : Z) (w : World HistoryState) :
  saveClaim text summary' uuid now w
  = let item :=
      {| id := uuid; claimText := text; timestamp := now;
         status := processing;
         summary := Some (or_else summary' (default_summary text)) |} in
    (Normal uuid,
     {| state :=
          {| claims := item :: claims (state w);
             selectedClaimId := Some uuid;
             localStorage := Some (StoredClaims (item :: claims (state w))) |};
        effects := effects w |}).
Proof. reflexivity. Qed.

Lemma updateClaimStatus_run (claimId : jsstring) (value : Status)
    (w : World HistoryState) :
  updateClaimStatus claimId value None w
  = (Normal tt,
     {| state :=
          {| claims := map (mark claimId value) (claims (state w));
             selectedClaimId := selectedClaimId (state w);
             localStorage :=
               Some (StoredClaims
                       (map (mark claimId value) (claims (state w)))) |};
        effects := effects w |}).
Proof. reflexivity. Qed.

Lemma deleteClaim_run (claimId : jsstring) (w : World HistoryState) :
  deleteClaim claimId w
  = let kept :=
      filter (fun c => negb (JS.eqb (id c) claimId)) (claims (state w)) in
    (Normal tt,
     {| state :=
          {| claims := kept;
             selectedClaimId :=
               match selectedClaimId (state w) with
               | Some selected =>
                   if JS.eqb selected claimId then None else Some selected
               | None => None
               end;
             localStorage := Some (StoredClaims kept) |};
        effects := effects w |}).
Proof.
  unfold deleteClaim, bind, get, update_and_store, modify. simpl.
  destruct (selectedClaimId (state w)) as [selected|]; [|reflexivity].
  now destruct (JS.eqb selected claimId).
Qed.

(** X11. What the history writes to the storage is what it shows: after
    a claim is saved, a status updated, a claim deleted or the history
    cleared, a hook mounted anew over the storage loads the same claims. *)
Theorem history_survives_reload (text uuid claimId : jsstring)
    (summary' : option jsstring) (now : Z) (value : Status)
    (w : World HistoryState) :
  let reloaded (m : M HistoryState unit) :=
    claims (state (exec load (remounted (state (exec m w)))))
    = claims (state (exec m w)) in
  reloaded (saveClaim text summary' uuid now ;; ret tt)
  /\ reloaded (updateClaimStatus claimId value summary')
  /\ reloaded (deleteClaim claimId)
  /\ reloaded clearHistory.
Proof.
  intros reloaded. unfold reloaded, remounted, exec.
  rewrite deleteClaim_run. repeat split.
Qed.

Lemma default_summary_length (text : jsstring) :
  (List.length (default_summary text) <= 53)%nat.
Proof.
  unfold default_summary. rewrite length_app, length_firstn.
  pose proof (Nat.le_min_l 50 (List.length text)) as Hmin.
  destruct (50 <? List.length text)%nat.
  - change (List.length (JS.lit "...")) with 3%nat. lia.
  - change (List.length (@nil Z)) with 0%nat. lia.
Qed.

Lemma default_summary_short (text : jsstring) :
  (List.length text <= 50)%nat -> default_summary text = text.
Proof.
  intros H. unfold default_summary.
  assert (E : (50 <? List.length text)%nat = false)
    by (apply Nat.ltb_ge; exact H).
  rewrite E, app_nil_r. now apply firstn_all2.
Qed.

(** X12. [saveClaim] puts the new claim first, as processing, and selects
    it.  Without a summary (or with an empty one) the claim gets one made
    from its text: the text itself up to 50 characters, else its first 50
    followed by three dots, so never longer than 53; a summary that is
    given and not empty is kept as it is. *)
Theorem saved_claim_summary (text uuid : jsstring)
    (summary' : option jsstring) (now : Z) (w : World HistoryState) :
  let w' := exec (saveClaim text summary' uuid now) w in
  let made := or_else summary' (default_summary text) in
  claims (state w')
  = {| id := uuid; claimText := text; timestamp := now;
       status := processing; summary := Some made |} :: claims (state w)
  /\ selectedClaimId (state w') = Some uuid
  /\ (forall s, summary' = Some s -> s <> [] -> made = s)
  /\ (summary' = None \/ summary' = Some [] ->
      (List.length made <= 53)%nat
      /\ ((List.length text <= 50)%nat -> made = text)
      /\ ((50 < List.length text)%nat ->
          made = firstn 50 text ++ JS.lit "...")).
Proof.
  intros w' made. unfold w', exec. rewrite saveClaim_run. simpl.
  split; [reflexivity|]. split; [reflexivity|]. split.
  - intros s -> Hs. unfold made. simpl.
    apply JSFacts.truthy_true in Hs. now rewrite Hs.
  - intros Hnone.
    assert (E : made = default_summary text)
      by (unfold made; destruct Hnone as [-> | ->]; reflexivity).
    rewrite E. split; [apply default_summary_length|].
    split; [apply default_summary_short|].
    intros Hlong. unfold default_summary.
    apply Nat.ltb_lt in Hlong. now rewrite Hlong.
Qed.

Lemma mark_id (claimId : jsstring) (value : Status) (c : ClaimHistoryItem) :
  id (mark claimId value c) = id c
  /\ claimText (mark claimId value c) = claimText c
  /\ timestamp (mark claimId value c) = timestamp c
  /\ summary (mark claimId value c) = summary c.
Proof. unfold mark. now destruct (JS.eqb (id c) claimId). Qed.

(** X13. [updateClaimStatus] without a summary changes statuses only: the
    claims keep their order, ids, texts, times and summaries; every claim
    with the given id gets the status, every other claim is unchanged, and
    for an id the history does not hold the claims are as before. *)
Theorem updateClaimStatus_changes_status_only (claimId : jsstring)
    (value : Status) (w : World HistoryState) :
  let before := claims (state w) in
  let after := claims (state (exec (updateClaimStatus claimId value None) w)) in
  map id after = map id before
  /\ map claimText after = map claimText before
  /\ map timestamp after = map timestamp before
  /\ map summary after = map summary before
  /\ (forall i c, nth_error before i = Some c ->
        nth_error after i
        = Some (if JS.eqb (id c) claimId
                then {| id := id c; claimText := claimText c;
                        timestamp := timestamp c; status := value;
                        summary := summary c |}
                else c))
  /\ (~ In claimId (map id before) -> after = before).
Proof.
  intros before after. unfold after, before, exec.
  rewrite updateClaimStatus_run. simpl.
  rewrite !map_map.
  repeat split; try (apply map_ext; intros c; apply mark_id).
  - intros i c Hnth. rewrite nth_error_map, Hnth. reflexivity.
  - intros Hnot. rewrite <- (map_id (claims (state w))) at 2.
    apply map_ext_in. intros c Hin. unfold mark.
    destruct (JS.eqb (id c) claimId) eqn:E; [|reflexivity].
    apply JSFacts.eqb_eq in E. exfalso. apply Hnot. rewrite <- E.
    now apply in_map.
Qed.

(** X14. [deleteClaim] removes every claim with the given id and no
    other, keeping the order; it clears the selection when the selected
    claim is the deleted one and keeps it otherwise; and deleting again
    changes nothing. *)
Theorem deleteClaim_removes_exactly (claimId : jsstring)
    (w : World HistoryState) :
  let w' := exec (deleteClaim claimId) w in
  ~ In claimId (map id (claims (state w')))
  /\ (forall c, id c <> claimId ->
        (In c (claims (state w')) <-> In c (claims (state w))))
  /\ claims (state w')
     = filter (fun c => negb (JS.eqb (id c) claimId)) (claims (state w))
  /\ selectedClaimId (state w')
     = (if match selectedClaimId (state w) with
           | Some selected => JS.eqb selected claimId
           | None => false
           end
        then None else selectedClaimId (state w))
  /\ state (exec (deleteClaim claimId) w') = state w'.
Proof.
  intros w'. unfold w', exec. rewrite !deleteClaim_run. cbv zeta. simpl.
  split; [|split; [|split; [reflexivity|split]]].
  - rewrite in_map_iff. intros [c [Hid Hin]].
    apply filter_In in Hin as [_ Hneq]. rewrite Hid in Hneq.
    now rewrite JSFacts.eqb_refl in Hneq.
  - intros c Hc. rewrite filter_In. split; [now intros [H _]|].
    intros H. split; [assumption|].
    apply JSFacts.eqb_neq in Hc. now rewrite Hc.
  - destruct (selectedClaimId (state w)) as [selected|]; [|reflexivity].
    now destruct (JS.eqb selected claimId).
  - assert (Hfilter :
      filter (fun c => negb (JS.eqb (id c) claimId))
        (filter (fun c => negb (JS.eqb (id c) claimId)) (claims (state w)))
      = filter (fun c => negb (JS.eqb (id c) claimId)) (claims (state w))).
    { induction (claims (state w)) as [|c cs IH]; [reflexivity|].
      simpl. destruct (negb (JS.eqb (id c) claimId)) eqn:E; [|exact IH].
      simpl. now rewrite E, IH. }
    rewrite Hfilter. f_equal.
    destruct (selectedClaimId (state w)) as [selected|]; [|reflexivity].
    destruct (JS.eqb selected claimId) eqn:E; [reflexivity|].
    now rewrite E.
Qed.

(** X15. Saving a claim under an id the history does not hold and then
    deleting that id gives back the claims there were, in the state and in
    the storage, with no claim selected. *)
Theorem save_then_delete_restores (text uuid : jsstring)
    (summary' : option jsstring) (now : Z) (w : World HistoryState) :
  ~ In uuid (map id (claims (state w))) ->
  state (exec (deleteClaim uuid) (exec (saveClaim text summary' uuid now) w))
  = {| claims := claims (state w);
       selectedClaimId := None;
       localStorage := Some (StoredClaims (claims (state w))) |}.
Proof.
  intros Hfresh. unfold exec. rewrite saveClaim_run. cbv zeta.
  rewrite deleteClaim_run. cbv zeta. simpl.
  rewrite !JSFacts.eqb_refl. simpl.
  assert (Hkept :
    filter (fun c => negb (JS.eqb (id c) uuid)) (claims (state w))
    = claims (state w)).
  { induction (claims (state w)) as [|c cs IH]; [reflexivity|].
    simpl in Hfresh |- *.
    destruct (JS.eqb (id c) uuid) eqn:E.
    - apply JSFacts.eqb_eq in E. exfalso. apply Hfresh. now left.
    - simpl. rewrite IH; [reflexivity|]. intros Hin. apply Hfresh.
      now right. }
  now rewrite Hkept.
Qed.

(** X16. The ids of the history stay pairwise distinct: an update, a
    deletion and a clearing keep them so, and so does saving a claim under
    an id the history does not hold. *)
Theorem history_ids_stay_unique (text uuid claimId : jsstring)
    (summary' : option jsstring) (now : Z) (value : Status)
    (w : World HistoryState) :
  unique_ids (claims (state w)) ->
  unique_ids (claims (state (exec (updateClaimStatus claimId value None) w)))
  /\ unique_ids (claims (state (exec (deleteClaim claimId) w)))
  /\ unique_ids (claims (state (exec clearHistory w)))
  /\ (~ In uuid (map id (claims (state w))) ->
      unique_ids
        (claims (state (exec (saveClaim text summary' uuid now) w)))).
Proof.
  unfold unique_ids, exec. intros Hu.
  rewrite updateClaimStatus_run, deleteClaim_run, saveClaim_run. simpl.
  split; [|split; [|split]].
  - rewrite map_map.
    assert (E : map (fun c => id (mark claimId value c)) (claims (state w))
                = map id (claims (state w)))
      by (apply map_ext; intros c; apply mark_id).
    now rewrite E.
  - induction (claims (state w)) as [|c cs IH]; [constructor|].
    simpl in Hu |- *. inversion Hu as [|? ? Hc Hcs]; subst.
    destruct (negb (JS.eqb (id c) claimId)); [|now apply IH].
    simpl. constructor; [|now apply IH].
    rewrite in_map_iff. intros [c' [Hid Hin]].
    apply filter_In in Hin as [Hin _]. apply Hc. rewrite <- Hid.
    now apply in_map.
  - constructor.
  - intros Hfresh. now constructor.
Qed.

End HistoryMore.

(* ================================================================= *)
(** ** Properties of the page *)

Section PageMore.
Context {P : Platform} {F : FileAPI}.
Import Index Spec Props.

(** A submission of the page around any run [m] of the processor. *)
Lemma page_submission (m : M ClaimProcessor.HookState unit)
    (text uuid : jsstring) (now : Z) (w : World PageState) :
  let run :=
    (setHasStarted true ;;
     claimId <- in_history (ClaimsHistory.saveClaim text None uuid now) ;;
     try_catch
       (in_processor m ;;
        in_history
          (ClaimsHistory.updateClaimStatus claimId ClaimsHistory.completed
                                           None))
       (fun _ =>
          in_history
            (ClaimsHistory.updateClaimStatus claimId ClaimsHistory.failed
                                             None))) in
  let sub := {| state := processor (state w); effects := effects w |} in
  let saved :=
    new_claim text uuid now ClaimsHistory.processing
    :: ClaimsHistory.claims (history (state w)) in
  let page (items : list ClaimsHistory.ClaimHistoryItem) :=
    {| state :=
         {| processor := state (exec m sub);
            history :=
              {| ClaimsHistory.claims := items;
                 ClaimsHistory.selectedClaimId := Some uuid;
                 ClaimsHistory.localStorage :=
                   Some (ClaimsHistory.StoredClaims items) |};
            hasStarted := true;
            isChatOpen := isChatOpen (state w) |};
       effects := effects (exec m sub) |} in
  run w
  = match completion m sub with
    | Normal _ =>
        (Normal tt, page (map (mark uuid ClaimsHistory.completed) saved))
    | Throw _ =>
        (Normal tt, page (map (mark uuid ClaimsHistory.failed) saved))
    | Pending => (Pending, page saved)
    end.
Proof.
  intros run sub saved page.
  unfold run, page, saved, sub, completion, exec.
  unfold bind at 1, setHasStarted at 1, modify at 1.
  unfold bind at 1, in_history at 1, zoom at 1.
  rewrite saveClaim_run. cbv zeta.
  cbn [fst snd state effects history processor hasStarted isChatOpen
       with_history].
  unfold try_catch, bind at 1, in_processor, zoom at 1.
  cbn [fst snd state effects history processor hasStarted isChatOpen].
  destruct (m _) as [[[]|e|] wp];
    cbn [fst snd state effects with_processor history processor hasStarted
         isChatOpen];
    try reflexivity;
    unfold in_history, zoom;
    rewrite updateClaimStatus_run; reflexivity.
Qed.

Lemma mark_new_claim (text uuid : jsstring) (now : Z)
    (value : ClaimsHistory.Status) :
  mark uuid value (new_claim text uuid now ClaimsHistory.processing)
  = new_claim text uuid now value.
Proof. unfold mark, new_claim. simpl. now rewrite JSFacts.eqb_refl. Qed.

(** What a settled or unsettled response means for the processor inside
    the page. *)
Lemma processor_completion (claimText : jsstring) (file : File)
    (net : Completion Response) (w : World ClaimProcessor.HookState) :
  (settled net ->
   completion (ClaimProcessor.processClaim claimText net) w = Normal tt
   /\ completion (ClaimProcessor.processFile file net) w = Normal tt)
  /\ (~ settled net ->
      completion (ClaimProcessor.processClaim claimText net) w = Pending
      /\ completion (ClaimProcessor.processFile file net) w = Pending).
Proof.
  split; intros H; split.
  - exact (proj1 (submission_outcome API_ENDPOINT (ClaimBody claimText) net
                    _ _ _ w) H).
  - exact (proj1 (submission_outcome API_FILE_ENDPOINT (FileBody file) net
                    _ _ _ w) H).
  - exact (proj1 (proj2 (submission_outcome API_ENDPOINT
                           (ClaimBody claimText) net _ _ _ w)) H).
  - exact (proj1 (proj2 (submission_outcome API_FILE_ENDPOINT
                           (FileBody file) net _ _ _ w)) H).
Qed.

(** X17. Once the response has settled, the page has marked the claim it
    saved as completed, whichever way the submission went: a rejected
    request, a failure status, a missing body and a rejected read end in
    an error toast and a completed claim alike, since the processor
    catches its errors; no claim is ever marked failed.  The claim is
    first and selected, and the file's claim text is its name after
    "[File Upload] ". *)
Theorem page_submit_marks_completed (claimText uuid : jsstring) (file : File)
    (now : Z) (net : Completion Response) (w : World PageState) :
  settled net ->
  let old := ClaimsHistory.claims (history (state w)) in
  let marked (text : jsstring) (w' : World PageState) :=
    ClaimsHistory.claims (history (state w'))
    = new_claim text uuid now ClaimsHistory.completed
      :: map (mark uuid ClaimsHistory.completed) old
    /\ ClaimsHistory.selectedClaimId (history (state w')) = Some uuid
    /\ hasStarted (state w') = true
    /\ ClaimProcessor.isProcessing (processor (state w')) = false in
  (completion (handleSubmit claimText uuid now net) w = Normal tt
   /\ marked claimText (exec (handleSubmit claimText uuid now net) w))
  /\ (completion (handleFileSubmit file uuid now net) w = Normal tt
      /\ marked (JS.lit "[File Upload] " ++ file_name file)
                (exec (handleFileSubmit file uuid now net) w)).
Proof.
  intros Hs old marked.
  set (sub := {| state := processor (state w); effects := effects w |}).
  destruct (processor_completion claimText file net sub) as [Hc _].
  destruct (Hc Hs) as [Hclaim Hfile].
  pose proof (submission_terminal API_ENDPOINT (ClaimBody claimText) net
                (JS.lit "Claim processed successfully!")
                "Error processing claim:"
                "Failed to connect to the processing server" sub Hs)
    as [_ [Hpc _]].
  pose proof (submission_terminal API_FILE_ENDPOINT (FileBody file) net
                (JS.lit "File processed successfully!")
                "Error processing file:"
                "Failed to process the file" sub Hs)
    as [_ [Hpf _]].
  unfold marked, completion, exec, handleSubmit, handleFileSubmit.
  rewrite !page_submission. cbv zeta. fold sub.
  rewrite Hclaim, Hfile.
  cbn [fst snd state history processor hasStarted
       ClaimsHistory.claims ClaimsHistory.selectedClaimId map].
  rewrite !mark_new_claim.
  repeat split; assumption.
Qed.

(** X18. While the response has not settled, the page is suspended in its
    submission: the claim it saved is first, selected and still
    processing, the earlier claims are untouched and the processor is
    active. *)
Theorem page_submit_in_flight (claimText uuid : jsstring) (file : File)
    (now : Z) (net : Completion Response) (w : World PageState) :
  ~ settled net ->
  let old := ClaimsHistory.claims (history (state w)) in
  let saved (text : jsstring) (w' : World PageState) :=
    ClaimsHistory.claims (history (state w'))
    = new_claim text uuid now ClaimsHistory.processing :: old
    /\ ClaimsHistory.selectedClaimId (history (state w')) = Some uuid
    /\ hasStarted (state w') = true
    /\ ClaimProcessor.isProcessing (processor (state w')) = true in
  (completion (handleSubmit claimText uuid now net) w = Pending
   /\ saved claimText (exec (handleSubmit claimText uuid now net) w))
  /\ (completion (handleFileSubmit file uuid now net) w = Pending
      /\ saved (JS.lit "[File Upload] " ++ file_name file)
               (exec (handleFileSubmit file uuid now net) w)).
Proof.
  intros Hns old saved.
  set (sub := {| state := processor (state w); effects := effects w |}).
  destruct (processor_completion claimText file net sub) as [_ Hc].
  destruct (Hc Hns) as [Hclaim Hfile].
  destruct (submission_outcome API_ENDPOINT (ClaimBody claimText) net
              (JS.lit "Claim processed successfully!")
              "Error processing claim:"
              "Failed to connect to the processing server" sub)
    as [_ [Hc1 [_ [Hpc _]]]].
  destruct (submission_outcome API_FILE_ENDPOINT (FileBody file) net
              (JS.lit "File processed successfully!")
              "Error processing file:"
              "Failed to process the file" sub)
    as [_ [Hc2 [_ [Hpf _]]]].
  rewrite (Hc1 Hns) in Hpc. rewrite (Hc2 Hns) in Hpf.
  unfold saved, completion, exec, handleSubmit, handleFileSubmit.
  rewrite !page_submission. cbv zeta. fold sub.
  rewrite Hclaim, Hfile.
  cbn [fst snd state history processor hasStarted
       ClaimsHistory.claims ClaimsHistory.selectedClaimId].
  repeat split; assumption.
Qed.

(** X23. Selecting a claim the history does not hold does nothing; so
    selecting a claim right after it was deleted leaves the page as the
    deletion left it, whereas a claim the history holds becomes the
    selected one and the page shows the results view, the claims
    unchanged. *)
Theorem page_select_needs_claim (claimId : jsstring) (w : World PageState) :
  let deleted := exec (in_history (ClaimsHistory.deleteClaim claimId)) w in
  handleSelectClaim claimId deleted = (Normal tt, deleted)
  /\ (In claimId
         (map ClaimsHistory.id (ClaimsHistory.claims (history (state w)))) ->
      ClaimsHistory.selectedClaimId
        (history (state (exec (handleSelectClaim claimId) w)))
      = Some claimId
      /\ hasStarted (state (exec (handleSelectClaim claimId) w)) = true
      /\ ClaimsHistory.claims
           (history (state (exec (handleSelectClaim claimId) w)))
         = ClaimsHistory.claims (history (state w))).
Proof.
  intros deleted. split.
  - unfold handleSelectClaim, bind at 1, get at 1.
    cbn [fst snd].
    assert (Hnone :
      find (fun c => JS.eqb (ClaimsHistory.id c) claimId)
           (ClaimsHistory.claims (history (state deleted))) = None).
    { unfold deleted, exec, in_history, zoom.
      rewrite deleteClaim_run. cbv zeta.
      cbn [fst snd state history with_history ClaimsHistory.claims].
      induction (ClaimsHistory.claims (history (state w))) as [|c cs IH];
        [reflexivity|].
      simpl. destruct (JS.eqb (ClaimsHistory.id c) claimId) eqn:E; simpl;
        [exact IH|]. now rewrite E. }
    now rewrite Hnone.
  - intros Hin.
    assert (Hrun : handleSelectClaim claimId w
      = (Normal tt,
         {| state :=
              {| processor := processor (state w);
                 history :=
                   {| ClaimsHistory.claims :=
                        ClaimsHistory.claims (history (state w));
                      ClaimsHistory.selectedClaimId := Some claimId;
                      ClaimsHistory.localStorage :=
                        ClaimsHistory.localStorage (history (state w)) |};
                 hasStarted := true;
                 isChatOpen := isChatOpen (state w) |};
            effects := effects w |})).
    { unfold handleSelectClaim, bind at 1, get at 1. cbn [fst snd].
      destruct (find (fun c => JS.eqb (ClaimsHistory.id c) claimId)
                  (ClaimsHistory.claims (history (state w))))
        as [c|] eqn:Hfind; [reflexivity|].
      exfalso. apply in_map_iff in Hin as [c [Hid Hc]].
      apply (find_none _ _ Hfind) in Hc. rewrite Hid in Hc.
      now rewrite JSFacts.eqb_refl in Hc. }
    unfold exec. rewrite Hrun. repeat split.
Qed.

End PageMore.

(* ================================================================= *)
(** ** Properties of the stepper *)

Section StepperMore.
Import ProcessingStepper Props.

(** The statuses rendered, from the four memberships. *)
Lemma render_cases (completedNodes : list jsstring) (isProcessing : bool) :
  let b1 := JS.includes completedNodes (JS.lit "Intake Node") in
  let b2 := JS.includes completedNodes (JS.lit "Policy Node") in
  let b3 := JS.includes completedNodes (JS.lit "Risk Analyze Node") in
  let b4 := JS.includes completedNodes (JS.lit "Routing Node") in
  let count :=
    ((if b1 then 1 else 0) + (if b2 then 1 else 0)
     + (if b3 then 1 else 0) + (if b4 then 1 else 0))%nat in
  let status (b : bool) (index : nat) :=
    if b then completed
    else if isProcessing && (index =? count)%nat then active else pending in
  render completedNodes isProcessing
  = [status b1 0%nat; status b2 1%nat; status b3 2%nat; status b4 3%nat]
  /\ List.length
       (filter (fun s => JS.includes completedNodes (id s)) steps) = count.
Proof.
  intros b1 b2 b3 b4 count status.
  assert (Hcount :
    List.length (filter (fun s => JS.includes completedNodes (id s)) steps)
    = count).
  { unfold steps, count. cbn [filter id]. fold b1 b2 b3 b4.
    destruct b1, b2, b3, b4; reflexivity. }
  split; [|exact Hcount].
  unfold render, getStepStatus. rewrite Hcount.
  unfold steps. cbn [map_index id]. reflexivity.
Qed.

(** X19. Whatever nodes have completed, the stepper gives each of the
    four steps a status: a step is shown as completed exactly when its
    node has completed, and as active exactly when something is
    processing, its node has not completed and its index is the number of
    steps whose node has completed; so at most one step is active, and
    none when nothing is processing. *)
Theorem stepper_at_most_one_active (completedNodes : list jsstring)
    (isProcessing : bool) :
  let shown := render completedNodes isProcessing in
  let completedCount :=
    List.length (filter (fun s => JS.includes completedNodes (id s)) steps) in
  List.length shown = List.length steps
  /\ (forall index step,
        nth_error steps index = Some step ->
        (nth_error shown index = Some completed
         <-> JS.includes completedNodes (id step) = true)
        /\ (nth_error shown index = Some active
            <-> isProcessing = true
                /\ JS.includes completedNodes (id step) = false
                /\ index = completedCount))
  /\ (count_status active shown <= 1)%nat
  /\ count_status active (render completedNodes false) = 0%nat.
Proof.
  intros shown completedCount. subst shown completedCount.
  destruct (render_cases completedNodes isProcessing) as [Hr Hc].
  destruct (render_cases completedNodes false) as [Hr' _].
  rewrite Hr, Hr', Hc. clear Hr Hr' Hc. cbv zeta.
  split; [reflexivity|]. split.
  - intros index step Hnth. unfold steps in Hnth.
    destruct index as [|[|[|[|index]]]]; cbn [nth_error] in Hnth;
      [injection Hnth as <-; cbn [id nth_error] ..
      |destruct index; discriminate];
      generalize (JS.includes completedNodes (JS.lit "Intake Node"));
      generalize (JS.includes completedNodes (JS.lit "Policy Node"));
      generalize (JS.includes completedNodes (JS.lit "Risk Analyze Node"));
      generalize (JS.includes completedNodes (JS.lit "Routing Node"));
      intros [|] [|] [|] [|]; destruct isProcessing; cbn;
      split; split; intros; try discriminate; try reflexivity;
      try (repeat split; reflexivity);
      try (match goal with
           | H : _ /\ _ /\ _ |- _ =>
               destruct H as [? [? ?]]; discriminate
           end).
  - generalize (JS.includes completedNodes (JS.lit "Intake Node")).
    generalize (JS.includes completedNodes (JS.lit "Policy Node")).
    generalize (JS.includes completedNodes (JS.lit "Risk Analyze Node")).
    generalize (JS.includes completedNodes (JS.lit "Routing Node")).
    intros b4 b3 b2 b1.
    destruct b1, b2, b3, b4, isProcessing; vm_compute; split; lia.
Qed.

(** X20. When the nodes completed are the first [k] steps of the
    pipeline, the stepper shows these as completed, the next one as active
    while processing, and the later ones as pending; when nothing is
    processing, every step not completed is pending. *)
Theorem stepper_follows_pipeline (k : nat) (completedNodes : list jsstring) :
  first_completed k completedNodes ->
  (k <= 4)%nat ->
  render completedNodes true
  = repeat completed k
    ++ (if (k <? 4)%nat then active :: repeat pending (3 - k) else [])
  /\ render completedNodes false
     = repeat completed k ++ repeat pending (4 - k).
Proof.
  intros Hfirst Hk.
  destruct (render_cases completedNodes true) as [Hr _].
  destruct (render_cases completedNodes false) as [Hr' _].
  rewrite Hr, Hr'. clear Hr Hr'. cbv zeta.
  unfold first_completed, steps in Hfirst. cbn [map id] in Hfirst.
  injection Hfirst as -> -> -> ->.
  destruct k as [|[|[|[|[|k]]]]]; [split; reflexivity ..|lia].
Qed.

End StepperMore.

(* ================================================================= *)
(** ** Properties of the claim form *)

Section FormMore.
Context {P : Platform} {F : FileAPI} {S : Type}.
Import ClaimInput Props.
Variable form : S -> FormState.
Variable with_form : FormState -> S -> S.
Variable onSubmit : jsstring -> M S unit.
Variable onFileSubmit : File -> M S unit.
Hypothesis form_with_form : forall f s, form (with_form f s) = f.

(** X21. The file the form holds always has an allowed type: a file of
    another type is refused and leaves the selection as it was, and
    selecting, choosing, dropping or removing a file, dragging, typing and
    switching the mode all leave a selection of an allowed type. *)
Theorem form_selected_file_allowed (w : World S) (file : File)
    (first : option File) (type : DragEventType) (value : jsstring)
    (mode : InputMode) :
  file_allowed (form (state w)) ->
  (JS.includes allowedTypes (file_type file) = false ->
   selectedFile
     (form (state (exec (handleFileSelect form with_form file) w)))
   = selectedFile (form (state w)))
  /\ file_allowed
       (form (state (exec (handleFileSelect form with_form file) w)))
  /\ file_allowed
       (form (state (exec (handleFileChange form with_form first) w)))
  /\ file_allowed
       (form (state (exec (handleDrop form with_form first) w)))
  /\ file_allowed (form (state (exec (clearFile form with_form) w)))
  /\ file_allowed (form (state (exec (handleDrag form with_form type) w)))
  /\ file_allowed
       (form (state (exec (handleTextChange form with_form value) w)))
  /\ file_allowed (form (state (exec (setInputMode form with_form mode) w))).
Proof.
  intros Hw.
  assert (Hselect : forall w0 f,
    file_allowed (form (state w0)) ->
    file_allowed (form (state (exec (handleFileSelect form with_form f) w0)))).
  { intros w0 f H0. unfold exec, handleFileSelect.
    destruct (JS.includes allowedTypes (file_type f)) eqn:E; simpl;
      rewrite ?form_with_form; unfold file_allowed; simpl; assumption. }
  split; [|split; [|split; [|split; [|split; [|split; [|split]]]]]].
  - intros E. unfold exec, handleFileSelect. rewrite E. simpl.
    now rewrite form_with_form.
  - now apply Hselect.
  - destruct first as [f|]; simpl; [now apply Hselect|assumption].
  - unfold handleDrop, exec, bind. simpl.
    destruct first as [f|]; simpl.
    + apply (Hselect _ f). simpl. now rewrite form_with_form.
    + now rewrite form_with_form.
  - unfold exec. simpl. rewrite form_with_form. exact I.
  - destruct type; unfold exec; simpl; rewrite ?form_with_form;
      assumption.
  - unfold exec, handleTextChange, bind, get. simpl.
    destruct (JS.truthy (error (form (state w)))); simpl;
      rewrite !form_with_form; assumption.
  - unfold exec. simpl. now rewrite form_with_form.
Qed.

(** X22. The form submits nothing that is empty: with a blank or
    whitespace-only text in text mode, or without a file in file mode,
    [handleSubmit] only sets its error message and calls neither callback;
    otherwise it clears the error and ends with the call of the callback,
    on the text as typed or on the file: it returns when the callback
    returns and throws what the callback throws. *)
Theorem form_submit_gate (w : World S) :
  (inputMode (form (state w)) = text_mode ->
   (JS.truthy (JS.trim (claimText (form (state w)))) = false ->
    handleSubmit form with_form onSubmit onFileSubmit w
    = (Normal tt,
       exec (setError form with_form
               (JS.lit "Please enter claim details before processing.")) w))
   /\ (JS.truthy (JS.trim (claimText (form (state w)))) = true ->
       handleSubmit form with_form onSubmit onFileSubmit w
       = onSubmit (claimText (form (state w)))
                  (exec (setError form with_form []) w)))
  /\ (inputMode (form (state w)) = file_mode ->
      (selectedFile (form (state w)) = None ->
       handleSubmit form with_form onSubmit onFileSubmit w
       = (Normal tt,
          exec (setError form with_form
                  (JS.lit "Please select a file before processing.")) w))
      /\ (forall f, selectedFile (form (state w)) = Some f ->
          handleSubmit form with_form onSubmit onFileSubmit w
          = onFileSubmit f (exec (setError form with_form []) w))).
Proof.
  unfold handleSubmit, bind, get. simpl.
  split; intros Hmode; rewrite Hmode; split.
  - intros Hblank. now rewrite Hblank.
  - intros Htext. now rewrite Htext.
  - intros Hnone. now rewrite Hnone.
  - intros f Hsome. now rewrite Hsome.
Qed.

End FormMore.

(* ================================================================= *)
(** ** The further properties on the sample platform *)

Section SamplesMore.
Import Spec Props Sample SampleMore.
#[local] Existing Instance Sample.platform.
#[local] Existing Instance SampleMore.files.

Lemma stream_records_of_all_lines_witness :
  ClaimProcessor.results
    (state (exec (ClaimProcessor.processStream
                    (streaming pieces (Normal tt))) hook_world))
  = [record_A; record_B].
Proof.
  refine (proj1 (proj2
    (stream_records_of_all_lines (streaming pieces (Normal tt))
       {| chunks := pieces; ending := Normal tt |} hook_world _ _)));
    reflexivity.
Defined.

Lemma stream_interrupted_keeps_complete_lines_witness :
  ClaimProcessor.results
    (state (exec (ClaimProcessor.processStream
                    (streaming unterminated (Throw NotAnError))) hook_world))
  = [record_euro].
Proof.
  refine (proj2
    (stream_interrupted_keeps_complete_lines
       (streaming unterminated (Throw NotAnError))
       {| chunks := unterminated; ending := Throw NotAnError |} hook_world
       _ _)).
  - reflexivity.
  - simpl. discriminate.
Defined.

Lemma submission_shows_one_toast_witness :
  exists new,
    effects (exec (ClaimProcessor.processClaim (str "claim")
                     (Normal (failure 500 "boom"))) hook_world)
    = effects hook_world ++ new
    /\ toasts new
       = [ToastError
            (JS.lit "Connection Error: HTTP error! status: 500 - boom")].
Proof.
  refine (proj1
    (submission_shows_one_toast (str "claim") (str "scan.pdf")
       (Normal (failure 500 "boom")) hook_world _)).
  simpl. discriminate.
Defined.

Lemma submission_in_flight_witness :
  ClaimProcessor.isProcessing
    (state (exec (ClaimProcessor.processClaim (str "claim")
                    (Normal (streaming pieces Pending))) hook_world))
  = true.
Proof.
  refine (proj1 (proj2 (proj1
    (submission_in_flight (str "claim") (str "scan.pdf")
       (Normal (streaming pieces Pending)) hook_world _)))).
  simpl. intros H. apply H. reflexivity.
Defined.

Lemma chat_missing_body_is_silent_witness :
  exists w',
    ClaimChatBox.handleSend None clock (Normal bodiless) (chat_world "hi")
    = (Normal tt, w').
Proof.
  eexists.
  refine (chat_missing_body_is_silent None clock bodiless (chat_world "hi")
            _ _ _).
  - split; reflexivity.
  - reflexivity.
  - reflexivity.
Defined.

Lemma chat_send_keeps_history_witness :
  map ClaimChatBox.id
      (ClaimChatBox.messages
         (state (exec (ClaimChatBox.handleSend None clock
                         (Normal (failure 500 "boom")))
                      (chat_world "hi"))))
  = [JS.lit "1"; JS.lit "2000"; JS.lit "2001"].
Proof.
  refine (proj1
    (chat_send_keeps_history None clock (Normal (failure 500 "boom"))
       (chat_world "hi") _)).
  split; reflexivity.
Defined.

Lemma chat_send_settles_witness :
  ClaimChatBox.isLoading
    (state (exec (ClaimChatBox.handleSend None clock
                    (Normal (failure 500 "boom"))) (chat_world "hi")))
  = false.
Proof.
  refine (proj2 (proj1
    (chat_send_settles None clock (Normal (failure 500 "boom"))
       (chat_world "hi") _) _)).
  - split; reflexivity.
  - exact I.
Defined.

Lemma saved_claim_summary_witness :
  (List.length
     (ClaimsHistory.or_else None (ClaimsHistory.default_summary long_text))
   <= 53)%nat.
Proof.
  refine (proj1 (proj2 (proj2 (proj2
    (saved_claim_summary long_text (JS.lit "n") None 900 history_world)))
    _)).
  left. reflexivity.
Defined.

Lemma updateClaimStatus_changes_status_only_witness :
  nth_error
    (ClaimsHistory.claims
       (state (exec (ClaimsHistory.updateClaimStatus (JS.lit "a")
                       ClaimsHistory.failed None) history_world))) 1
  = Some (item "a" ClaimsHistory.failed).
Proof.
  refine (proj1 (proj2 (proj2 (proj2 (proj2
    (updateClaimStatus_changes_status_only (JS.lit "a") ClaimsHistory.failed
       history_world))))) 1%nat (item "a" ClaimsHistory.completed) _).
  reflexivity.
Defined.

Lemma deleteClaim_removes_exactly_witness :
  In (item "a" ClaimsHistory.completed)
     (ClaimsHistory.claims
        (state (exec (ClaimsHistory.deleteClaim (JS.lit "b")) history_world))).
Proof.
  refine (proj2 (proj1 (proj2
    (deleteClaim_removes_exactly (JS.lit "b") history_world))
    (item "a" ClaimsHistory.completed) _) _).
  - vm_compute. discriminate.
  - right. left. reflexivity.
Defined.

Lemma save_then_delete_restores_witness :
  ClaimsHistory.claims
    (state (exec (ClaimsHistory.deleteClaim (JS.lit "n"))
                 (exec (ClaimsHistory.saveClaim long_text None (JS.lit "n")
                          900) history_world)))
  = ClaimsHistory.claims (state history_world).
Proof.
  refine (f_equal ClaimsHistory.claims
    (save_then_delete_restores long_text (JS.lit "n") None 900 history_world
       _)).
  vm_compute. intros [H|[H|[]]]; discriminate H.
Defined.

Lemma history_ids_stay_unique_witness :
  unique_ids
    (ClaimsHistory.claims
       (state (exec (ClaimsHistory.deleteClaim (JS.lit "b")) history_world))).
Proof.
  refine (proj1 (proj2
    (history_ids_stay_unique long_text (JS.lit "n") (JS.lit "b") None 900
       ClaimsHistory.failed history_world _))).
  unfold unique_ids. simpl.
  constructor; [|constructor; [intros []|constructor]].
  vm_compute. intros [H|[]]. discriminate H.
Defined.

Lemma page_submit_marks_completed_witness :
  hd_error
    (ClaimsHistory.claims
       (Index.history
          (state (exec (Index.handleSubmit (str "claim") (JS.lit "n") 900
                          (Normal (failure 500 "boom"))) page_world))))
  = Some (new_claim (str "claim") (JS.lit "n") 900 ClaimsHistory.completed).
Proof.
  refine (f_equal (@hd_error _) (proj1 (proj2 (proj1
    (page_submit_marks_completed (str "claim") (JS.lit "n") (str "scan.pdf")
       900 (Normal (failure 500 "boom")) page_world _))))).
  simpl. discriminate.
Defined.

Lemma page_submit_in_flight_witness :
  hd_error
    (ClaimsHistory.claims
       (Index.history
          (state (exec (Index.handleFileSubmit (str "scan.pdf") (JS.lit "n")
                          900 (Normal (streaming pieces Pending)))
                       page_world))))
  = Some (new_claim (str "[File Upload] scan.pdf") (JS.lit "n") 900
            ClaimsHistory.processing).
Proof.
  refine (f_equal (@hd_error _) (proj1 (proj2 (proj2
    (page_submit_in_flight (str "claim") (JS.lit "n") (str "scan.pdf")
       900 (Normal (streaming pieces Pending)) page_world _))))).
  simpl. intros H. apply H. reflexivity.
Defined.

Lemma page_select_needs_claim_witness :
  ClaimsHistory.selectedClaimId
    (Index.history
       (state (exec (Index.handleSelectClaim (JS.lit "a")) page_world)))
  = Some (JS.lit "a").
Proof.
  refine (proj1 (proj2
    (page_select_needs_claim (JS.lit "a") page_world) _)).
  right. left. reflexivity.
Defined.

Lemma stepper_follows_pipeline_witness :
  ProcessingStepper.render [JS.lit "Policy Node"; JS.lit "Intake Node"] true
  = [ProcessingStepper.completed; ProcessingStepper.completed;
     ProcessingStepper.active; ProcessingStepper.pending].
Proof.
  refine (proj1
    (stepper_follows_pipeline 2
       [JS.lit "Policy Node"; JS.lit "Intake Node"] _ _)).
  - vm_compute. reflexivity.
  - lia.
Defined.

Lemma form_selected_file_allowed_witness :
  file_allowed
    (state (exec (ClaimInput.handleFileSelect (fun st => st)
                    (fun f _ => f) (str "scan.pdf")) (form_world "x"))).
Proof.
  refine (proj1 (proj2
    (form_selected_file_allowed (fun st => st) (fun f _ => f) _
       (form_world "x") (str "scan.pdf") None ClaimInput.dragenter [] 
       ClaimInput.text_mode _))).
  - intros f s. reflexivity.
  - exact I.
Defined.

Lemma form_submit_gate_witness :
  ClaimInput.handleSubmit (fun st => st) (fun f _ => f)
    (fun _ => throw NotAnError) (fun _ => ret tt)
    (form_world "water damage")
  = (Throw NotAnError, form_world "water damage").
Proof.
  refine (proj2 (proj1
    (form_submit_gate (fun st => st) (fun f _ => f)
       (fun _ => throw NotAnError) (fun _ => ret tt)
       (form_world "water damage")) _) _).
  - reflexivity.
  - vm_compute. reflexivity.
Defined.

End SamplesMore.
